(** * Structural comparison of two JSON API responses

    Shallow embedding of [compare_responses.py] (the recursive differ
    [compare_objects] with its helper [compare_field_types]) and of the
    field-preview loop of [analyze_api_response.py].

    Python values produced by [json.load] are modelled by [JsonValue];
    a Python [str] is a [string] whose characters stand for code points;
    a [dict] is the list of its items (keys pairwise distinct after
    parsing); a [set] of keys is a [gset string], and the order in which
    a [for] loop visits it is a parameter [iter] of the model.
    Exceptions are explicit: every operation that can raise returns a
    [result].  The messages appended to [differences] are kept as
    records of their interpolated fields ([DiffRecord]).  The recursion
    of [compare_objects] is modelled twice: on the structure of its
    first argument, and with the frames of the call stack counted
    ([compare_objects_in]), where running out of them is an exception. *)

From Stdlib Require Import ZArith String Ascii List Sorted Permutation.
From Stdlib Require Import Floats.SpecFloat DecimalString.
From Stdlib Require Import Init.Byte Strings.Byte.
From stdpp Require Import base decidable list gmap strings sorting.

Open Scope string_scope.
Open Scope list_scope.

(** ** Values *)

(** What [json.load] builds: [None], [bool], [int], [float], [str],
    [list] and [dict].  A [float] is an IEEE-754 binary64 datum, given by
    its specification record ([S754_nan] is what the literal [NaN]
    parses to). *)
#[local] Unset Elimination Schemes.
Inductive JsonValue : Type :=
| JNone
| JBool (b : bool)
| JInt (n : Z)
| JFloat (f : spec_float)
| JStr (s : string)
| JList (items : list JsonValue)
| JDict (fields : list (string * JsonValue)).
#[local] Set Elimination Schemes.

(** [type(v).__name__] *)
Definition type_name (v : JsonValue) : string :=
  match v with
  | JNone => "NoneType"
  | JBool _ => "bool"
  | JInt _ => "int"
  | JFloat _ => "float"
  | JStr _ => "str"
  | JList _ => "list"
  | JDict _ => "dict"
  end.

(** [isinstance(v, dict)] and [isinstance(v, list)] *)
Definition is_dict (v : JsonValue) : bool :=
  match v with JDict _ => true | _ => false end.

Definition is_list (v : JsonValue) : bool :=
  match v with JList _ => true | _ => false end.

(** ** Exceptions *)

Inductive PyExc : Type :=
| KeyError (key : string)
| IndexError
| TypeError
| AttributeError
| RecursionError.

Inductive result (A : Type) : Type :=
| Ok (a : A)
| Raise (e : PyExc).
Arguments Ok {A} a.
Arguments Raise {A} e.

(** Sequencing: an exception ends the computation. *)
Global Instance result_bind : MBind result := λ A B k r,
  match r with
  | Ok a => k a
  | Raise e => Raise e
  end.

(** ** Difference records

    One constructor per f-string appended to [differences]; the arguments
    are the interpolated fields, in the order they appear in the text. *)
Inductive DiffRecord : Type :=
| KeyOnlyInLeft (path : string) (keys : list string)
    (* "Fields only in current API at {path}: {sorted(only_in_current)}" *)
| KeyOnlyInRight (path : string) (keys : list string)
    (* "Fields only in new API at {path}: {sorted(only_in_new)}" *)
| TypeMismatch (path : string) (type1 type2 : string)
    (* "Type mismatch at {path}: {type1} vs {type2}" *)
| LengthMismatch (path : string) (len1 len2 : nat)
    (* "Array length mismatch at {new_path}: {len(val1)} vs {len(val2)}" *)
| ValueMismatch (path : string) (val1 val2 : JsonValue).
    (* "Value difference at {new_path}: '{val1}' vs '{val2}'" *)

Definition diff_path (r : DiffRecord) : string :=
  match r with
  | KeyOnlyInLeft p _ | KeyOnlyInRight p _ | TypeMismatch p _ _
  | LengthMismatch p _ _ | ValueMismatch p _ _ => p
  end.

(** ** Built-in operations used by the scripts *)

(** [set(obj.keys()) if isinstance(obj, dict) else set()] *)
Definition keys_of (obj : JsonValue) : gset string :=
  match obj with
  | JDict fields => list_to_set (map fst fields)
  | _ => ∅
  end.

(** [sorted(...)] of a list of strings, and of a set of strings: the
    order on [str] is lexicographic, by code point ([String.le]). *)
Definition sorted_list (l : list string) : list string :=
  merge_sort String.le l.

Definition sorted (s : gset string) : list string :=
  sorted_list (elements s).

(** [d.get(key)], the pure reading of a dict. *)
Fixpoint lookup_field (key : string) (fields : list (string * JsonValue))
  : option JsonValue :=
  match fields with
  | [] => None
  | (key', v) :: fields' =>
      if String.eqb key' key then Some v else lookup_field key fields'
  end.

(** [obj[key]], with the rest of the computation as a continuation:
    a [KeyError] when the dict has no such key, a [TypeError] when [obj]
    is not a dict (no other subscript is ever given a [str] here). *)
Definition getitem {A} (obj : JsonValue) (key : string)
    (k : JsonValue -> result A) : result A :=
  match obj with
  | JDict fields =>
      (fix go (l : list (string * JsonValue)) : result A :=
         match l with
         | [] => Raise (KeyError key)
         | (key', v) :: l' => if String.eqb key' key then k v else go l'
         end) fields
  | _ => Raise TypeError
  end.

(** [items[0]]: an [IndexError] on the empty list. *)
Definition getitem0 {A} (items : list JsonValue)
    (k : JsonValue -> result A) : result A :=
  match items with
  | [] => Raise IndexError
  | x :: _ => k x
  end.

(** [val1 != val2] for two values of the same Python type, neither a
    [list] nor a [dict]: the only operands that the last branch of the
    loop ever sees (lemma [value_ne_reached]); the last case below is
    never evaluated.  Two floats are compared as IEEE-754 does, so that
    [NaN] differs from itself and the two zeros are equal. *)
Definition value_ne (val1 val2 : JsonValue) : bool :=
  match val1, val2 with
  | JNone, JNone => false
  | JBool b1, JBool b2 => negb (Bool.eqb b1 b2)
  | JInt n1, JInt n2 => negb (Z.eqb n1 n2)
  | JFloat f1, JFloat f2 => negb (SFeqb f1 f2)
  | JStr s1, JStr s2 => negb (String.eqb s1 s2)
  | _, _ => true
  end.

(** The two literal key lists of [compare_objects]. *)
Definition ignored_keys : list string :=
  ["lastRefreshed"; "lastUpdated"; "published"; "created"].

Definition value_exempt_keys : list string :=
  ["guid"; "id"; "description"; "content"; "title"].

(** [key in [...]] *)
Definition key_in (key : string) (l : list string) : bool :=
  existsb (String.eqb key) l.

(** ** [compare_field_types]

    [None] or the message; the message is never the empty string, so the
    caller's [if type_diff:] holds for every message. *)
Definition compare_field_types (val1 val2 : JsonValue) (path : string)
  : option DiffRecord :=
  let type1 := type_name val1 in
  let type2 := type_name val2 in
  if negb (String.eqb type1 type2)
  then Some (TypeMismatch path type1 type2)
  else None.

(** [f"{path}.{key}" if path else key] *)
Definition new_path_of (path key : string) : string :=
  if String.eqb path "" then key else path +:+ "." +:+ key.

(** The [for] loop: the bodies run in order, each one extending the
    list built so far; an exception leaves the loop. *)
Definition for_each {A B} (body : A -> result (list B))
  : list A -> result (list B) :=
  fix go (l : list A) :=
    match l with
    | [] => Ok []
    | x :: l' =>
        ds ← body x;
        ds' ← go l';
        Ok (ds ++ ds')
    end.

(** Truth value of a list: non-empty. *)
Definition list_truthy (l : list JsonValue) : bool :=
  match l with [] => false | _ :: _ => true end.

(** ** [compare_objects] *)

Section Compare.

(** Open recursion: [self] is [compare_objects] itself. *)
Variable self : JsonValue -> JsonValue -> string -> result (list DiffRecord).

(** The [if]/[elif] chain under "Compare values based on type". *)
Definition compare_values (key : string) (val1 val2 : JsonValue)
    (new_path : string) : result (list DiffRecord) :=
  match val1, val2 with
  | JDict _, JDict _ => self val1 val2 new_path
  | JList l1, JList l2 =>
      let differences :=
        if negb (Nat.eqb (length l1) (length l2))
        then [LengthMismatch new_path (length l1) (length l2)]
        else [] in
      (* val1 and val2 and isinstance(val1[0], dict)
                       and isinstance(val2[0], dict) *)
      cond ←
        (if list_truthy l1 && list_truthy l2 then
           getitem0 l1 (fun x1 =>
             if is_dict x1
             then getitem0 l2 (fun x2 => Ok (is_dict x2))
             else Ok false)
         else Ok false);
      if (cond : bool) then
        getitem0 l1 (fun x1 =>
        getitem0 l2 (fun x2 =>
          ds ← self x1 x2 (new_path +:+ "[0]");
          Ok (differences ++ ds)))
      else Ok differences
  | _, _ =>
      if value_ne val1 val2 && negb (key_in key value_exempt_keys)
      then Ok [ValueMismatch new_path val1 val2]
      else Ok []
  end.

(** One iteration of [for key in keys1 & keys2]: what it appends to
    [differences]. *)
Definition loop_body (obj1 obj2 : JsonValue) (path key : string)
  : result (list DiffRecord) :=
  getitem obj1 key (fun val1 =>
  getitem obj2 key (fun val2 =>
    let new_path := new_path_of path key in
    if key_in key ignored_keys then Ok []
    else
      match compare_field_types val1 val2 new_path with
      | Some type_diff => Ok [type_diff]
      | None => compare_values key val1 val2 new_path
      end)).

End Compare.

(** The records appended before the loop. *)
Definition only_in_current (obj1 obj2 : JsonValue) : gset string :=
  keys_of obj1 ∖ keys_of obj2.

Definition only_in_new (obj1 obj2 : JsonValue) : gset string :=
  keys_of obj2 ∖ keys_of obj1.

Definition key_only_records (obj1 obj2 : JsonValue) (path : string)
  : list DiffRecord :=
  (if bool_decide (only_in_current obj1 obj2 ≠ ∅)
   then [KeyOnlyInLeft path (sorted (only_in_current obj1 obj2))] else [])
  ++
  (if bool_decide (only_in_new obj1 obj2 ≠ ∅)
   then [KeyOnlyInRight path (sorted (only_in_new obj1 obj2))] else []).

(** Iterating over the set [keys1 & keys2] visits every element once, in
    an order fixed by the string hashes of the running interpreter:
    [iter] is that order. *)
Fixpoint compare_objects (iter : gset string -> list string)
    (obj1 obj2 : JsonValue) (path : string) {struct obj1}
  : result (list DiffRecord) :=
  let differences := key_only_records obj1 obj2 path in
  ds ← for_each (loop_body (compare_objects iter) obj1 obj2 path)
                (iter (keys_of obj1 ∩ keys_of obj2));
  Ok (differences ++ ds).

(** The contract of set iteration: each element exactly once. *)
Definition valid_iter (iter : gset string -> list string) : Prop :=
  ∀ s, iter s ≡ₚ elements s.

(** ** The call stack

    [compare_objects] above recurses on the structure of [obj1] and
    leaves the interpreter's call stack out.  In Python every call of
    [compare_objects] and of [compare_field_types] takes a frame, and a
    call made when no frame is left raises [RecursionError], which
    nothing in [compare_objects] catches.  [compare_objects_in] is the
    same body run with [frames] frames left at the call; the built-ins
    the body calls ([isinstance], [set], [sorted], [len]) take none. *)


(** One iteration of the loop with [frames] frames left inside the
    running call: [compare_field_types] needs one, [self] is
    [compare_objects] called with what is left. *)
Definition loop_body_in
    (self : JsonValue -> JsonValue -> string -> result (list DiffRecord))
    (frames : nat) (obj1 obj2 : JsonValue) (path key : string)
  : result (list DiffRecord) :=
  getitem obj1 key (fun val1 =>
  getitem obj2 key (fun val2 =>
    let new_path := new_path_of path key in
    if key_in key ignored_keys then Ok []
    else
      type_diff ←
        match frames with
        | O => Raise RecursionError
        | S _ => Ok (compare_field_types val1 val2 new_path)
        end;
      match type_diff with
      | Some type_diff => Ok [type_diff]
      | None => compare_values self key val1 val2 new_path
      end)).

Fixpoint compare_objects_in (iter : gset string -> list string)
    (frames : nat) (obj1 obj2 : JsonValue) (path : string) {struct frames}
  : result (list DiffRecord) :=
  match frames with
  | O => Raise RecursionError
  | S frames' =>
      let differences := key_only_records obj1 obj2 path in
      ds ← for_each (loop_body_in (compare_objects_in iter frames') frames'
                                  obj1 obj2 path)
                    (iter (keys_of obj1 ∩ keys_of obj2));
      Ok (differences ++ ds)
  end.



(** ** The field loops of [analyze_api_response.py] *)

Section Describe.

(** [repr] of a [float] and of a [str] are the interpreter's. *)
Variable repr_float : spec_float -> string.
Variable repr_str : string -> string.

(** [", ".join(parts)] *)
Definition join_comma (parts : list string) : string :=
  match parts with
  | [] => ""
  | p :: ps => fold_left (fun acc q => acc +:+ ", " +:+ q) ps p
  end.

(** [repr(v)] *)
Fixpoint py_repr (v : JsonValue) : string :=
  match v with
  | JNone => "None"
  | JBool true => "True"
  | JBool false => "False"
  | JInt n => NilZero.string_of_int (Z.to_int n)
  | JFloat f => repr_float f
  | JStr s => repr_str s
  | JList items => "[" +:+ join_comma (map py_repr items) +:+ "]"
  | JDict fields =>
      "{" +:+ join_comma
                (map (fun kv => repr_str (fst kv) +:+ ": " +:+ py_repr (snd kv))
                     fields) +:+ "}"
  end.

(** [str(v)] *)
Definition py_str (v : JsonValue) : string :=
  match v with
  | JStr s => s
  | _ => py_repr v
  end.

(** [str(v)[:50] + "..." if len(str(v)) > 50 else str(v)] *)
Definition sample (v : JsonValue) : string :=
  if Nat.ltb 50 (String.length (py_str v))
  then substring 0 50 (py_str v) +:+ "..."
  else py_str v.

(** [for key in sorted(feed.keys())], the loop run on the first feed and
    on its first item: the three fields interpolated into each printed
    line ["  - {key}: {value_type} = {sample}"]. *)
Definition describe_fields (feed : JsonValue)
  : result (list (string * string * string)) :=
  match feed with
  | JDict fields =>
      for_each (fun key =>
                  getitem feed key (fun value =>
                    let value_type := type_name value in
                    Ok [(key, value_type, sample value)]))
               (sorted_list (map fst fields))
  | _ => Raise AttributeError
  end.

End Describe.

(** ** The data model of the specification *)

(** The six tags of a JSON value. *)
Inductive JsonTag : Type :=
| TNull | TBoolean | TNumber | TString | TArray | TObject.

Definition json_tag (v : JsonValue) : JsonTag :=
  match v with
  | JNone => TNull
  | JBool _ => TBoolean
  | JInt _ | JFloat _ => TNumber
  | JStr _ => TString
  | JList _ => TArray
  | JDict _ => TObject
  end.

(** No [NaN] anywhere in the value. *)
Fixpoint nan_free (v : JsonValue) : bool :=
  match v with
  | JFloat S754_nan => false
  | JList items => forallb nan_free items
  | JDict fields => forallb (fun kv => nan_free (snd kv)) fields
  | _ => true
  end.

(** What the comparison of the lengths of two lists appends. *)
Definition length_records (l1 l2 : list JsonValue) (new_path : string)
  : list DiffRecord :=
  if negb (Nat.eqb (length l1) (length l2))
  then [LengthMismatch new_path (length l1) (length l2)]
  else [].

(** Neither a [list] nor a [dict]. *)
Definition is_scalar (v : JsonValue) : bool :=
  negb (is_dict v) && negb (is_list v).

(** ** Paths of the records *)

Definition is_key_only (r : DiffRecord) : bool :=
  match r with
  | KeyOnlyInLeft _ _ | KeyOnlyInRight _ _ => true
  | _ => false
  end.

(** [r] was reported strictly below [path]. *)
Definition below (path : string) (r : DiffRecord) : Prop :=
  ∃ suffix, suffix ≠ "" ∧ diff_path r = path +:+ suffix.

(** [r] was reported at [path] or below it; at [path] itself there are
    only the two key-list records. *)
Definition at_or_below (path : string) (r : DiffRecord) : Prop :=
  (is_key_only r = true ∧ diff_path r = path) ∨ below path r.

(** ** One iteration of the loop *)

(** What the first elements of two lists contribute. *)
Definition first_element_records (iter : gset string -> list string)
    (l1 l2 : list JsonValue) (new_path : string) (nested : list DiffRecord)
  : Prop :=
  match l1, l2 with
  | x1 :: _, x2 :: _ =>
      if is_dict x1 && is_dict x2
      then compare_objects iter x1 x2 (new_path +:+ "[0]") = Ok nested
      else nested = []
  | _, _ => nested = []
  end.

(** The records that an iteration appends at the path of its key. *)
Definition own_records (key : string) (val1 val2 : JsonValue)
    (new_path : string) : list DiffRecord :=
  match compare_field_types val1 val2 new_path with
  | Some type_diff => [type_diff]
  | None =>
      match val1, val2 with
      | JDict _, JDict _ => []
      | JList l1, JList l2 => length_records l1 l2 new_path
      | _, _ =>
          if value_ne val1 val2 && negb (key_in key value_exempt_keys)
          then [ValueMismatch new_path val1 val2]
          else []
      end
  end.

(** [isinstance(v, int)] for a value that is not a [bool], and
    [isinstance(v, float)]. *)
Definition is_int (v : JsonValue) : bool :=
  match v with JInt _ => true | _ => false end.

Definition is_float (v : JsonValue) : bool :=
  match v with JFloat _ => true | _ => false end.

(** Set iteration in descending key order: one of the orders that the
    hashes of an interpreter run can produce. *)
Definition iter_descending (s : gset string) : list string :=
  reverse (sorted s).

(** The [float] 5.0: mantissa [5 * 2^50], exponent [-50]. *)
Definition five_point_zero : spec_float := S754_finite false 5629499534213120 (-50).

(** ** Python equality

    [a == b] for two values built by [json.load].  Numbers compare by
    value across [bool], [int] and [float]; an [int] and a [float] are
    compared exactly.  The members of two lists and the values of two
    dicts are compared with the identity shortcut (the same object is
    equal to itself, whatever its [==] says).  Among parsed values the
    shortcut changes the answer for [NaN] only: the decoder returns one
    object, the module constant [json.decoder.NaN], for every [NaN] it
    reads, so a [NaN] member equals a [NaN] member, while [NaN == NaN]
    itself is false. *)

(** [a is b] where that differs from [a == b]. *)
Definition same_nan (a b : JsonValue) : bool :=
  match a, b with
  | JFloat S754_nan, JFloat S754_nan => true
  | _, _ => false
  end.

(** [f == n] for a float and an integer. *)
Definition float_eq_int (f : spec_float) (n : Z) : bool :=
  match f with
  | S754_zero _ => Z.eqb n 0
  | S754_finite s m e =>
      let signed := if s then Z.neg m else Z.pos m in
      if (0 <=? e)%Z
      then Z.eqb n (signed * 2 ^ e)
      else Z.eqb (n * 2 ^ (- e)) signed
  | S754_infinity _ | S754_nan => false
  end.

Fixpoint py_eq (a b : JsonValue) {struct a} : bool :=
  match a, b with
  | JNone, JNone => true
  | JBool x, JBool y => Bool.eqb x y
  | JBool x, JInt n | JInt n, JBool x => Z.eqb (Z.b2z x) n
  | JBool x, JFloat f | JFloat f, JBool x => float_eq_int f (Z.b2z x)
  | JInt n, JInt m => Z.eqb n m
  | JInt n, JFloat f | JFloat f, JInt n => float_eq_int f n
  | JFloat f, JFloat g => SFeqb f g
  | JStr s, JStr t => String.eqb s t
  | JList l, JList l' =>
      (fix go (l l' : list JsonValue) : bool :=
         match l, l' with
         | [], [] => true
         | x :: l, y :: l' => (same_nan x y || py_eq x y) && go l l'
         | _, _ => false
         end) l l'
  | JDict f, JDict g =>
      Nat.eqb (length f) (length g)
      && forallb (fun kv =>
                    match lookup_field (fst kv) g with
                    | Some v' => same_nan (snd kv) v' || py_eq (snd kv) v'
                    | None => false
                    end) f
  | _, _ => false
  end.

(** ** The report loops of [compare_responses.py]

    The two loops that follow the call of [compare_objects] print one
    line per finding; a line is kept as the record of its interpolated
    fields.  What was printed stays printed when a later iteration
    raises: a loop yields its lines and the exception that ended it, if
    any. *)

Definition print_loop {A L} (body : A -> result (list L))
  : list A -> list L * option PyExc :=
  fix go (l : list A) :=
    match l with
    | [] => ([], None)
    | x :: l' =>
        match body x with
        | Raise e => ([], Some e)
        | Ok lines => let (rest, e) := go l' in (lines ++ rest, e)
        end
    end.

(** [key in s] for two [str]. *)
Fixpoint is_substring (key s : string) : bool :=
  String.prefix key s
  || match s with
     | EmptyString => false
     | String _ s' => is_substring key s'
     end.

(** [key in x] for a [str] key: a key of a dict, an element of a list, a
    substring of a [str]; a [TypeError] otherwise. *)
Definition py_in (key : string) (x : JsonValue) : result bool :=
  match x with
  | JDict fields =>
      Ok (match lookup_field key fields with Some _ => true | None => false end)
  | JList items => Ok (existsb (fun e => py_eq e (JStr key)) items)
  | JStr s => Ok (is_substring key s)
  | _ => Raise TypeError
  end.

(** [x.get(key, default)]: only a dict has the method. *)
Definition dict_get (x : JsonValue) (key : string) (default : JsonValue)
  : result JsonValue :=
  match x with
  | JDict fields =>
      Ok (match lookup_field key fields with Some v => v | None => default end)
  | _ => Raise AttributeError
  end.

Inductive SampleLine : Type :=
| ValueChanged (key : string) (curr_val new_val : JsonValue)
    (* "  {key}: '{curr_val}' → '{new_val}'" *)
| MissingInNew (key : string) (curr_val : JsonValue)
    (* "  {key}: '{current_feeds[0][key]}' → MISSING" *)
| MissingInCurrent (key : string) (new_val : JsonValue).
    (* "  {key}: MISSING → '{new_feeds[0][key]}'" *)

Definition sample_keys : list string :=
  ["type"; "status"; "feedTitle"; "feedUrl"; "language"].

(** One iteration of the loop under "Sample values comparison"; [cur] and
    [new] are [current_feeds[0]] and [new_feeds[0]]. *)
Definition sample_value_line (cur new : JsonValue) (key : string)
  : result (list SampleLine) :=
  in_cur ← py_in key cur;
  both ← (if (in_cur : bool) then py_in key new else Ok false);
  if (both : bool) then
    curr_val ← dict_get cur key (JStr "MISSING");
    new_val ← dict_get new key (JStr "MISSING");
    if negb (py_eq curr_val new_val)
    then Ok [ValueChanged key curr_val new_val]
    else Ok []
  else
    in_cur' ← py_in key cur;
    if (in_cur' : bool) then
      getitem cur key (fun v => Ok [MissingInNew key v])
    else
      in_new ← py_in key new;
      if (in_new : bool) then
        getitem new key (fun v => Ok [MissingInCurrent key v])
      else Ok [].

Definition sample_values (cur new : JsonValue)
  : list SampleLine * option PyExc :=
  print_loop (sample_value_line cur new) sample_keys.

Inductive FieldLine : Type :=
| PresenceMismatch (field : string) (curr_has new_has : bool)
    (* "  {field}: Current has={curr_has}, New has={new_has}" *)
| FieldTypeMismatch (field : string) (type1 type2 : string).
    (* "  {field}: Type mismatch - {type1} vs {type2}" *)

Definition check_fields : list string :=
  ["enclosures"; "thumbnail"; "duration"; "categories"; "content_encoded"].

(** One iteration of the loop under "Checking specific item fields";
    [cur] and [new] are [curr_items[0]] and [new_items[0]].  The script
    calls [keys()] on both just before the loop, so that the loop is only
    reached with two dicts. *)
Definition check_item_field (cur new : JsonValue) (field : string)
  : result (list FieldLine) :=
  curr_has ← py_in field cur;
  new_has ← py_in field new;
  if negb (Bool.eqb curr_has new_has) then
    Ok [PresenceMismatch field curr_has new_has]
  else if curr_has && new_has then
    getitem cur field (fun curr_val =>
    getitem new field (fun new_val =>
      if negb (String.eqb (type_name curr_val) (type_name new_val))
      then Ok [FieldTypeMismatch field (type_name curr_val) (type_name new_val)]
      else Ok []))
  else Ok [].

Definition check_item_fields (cur new : JsonValue)
  : list FieldLine * option PyExc :=
  print_loop (check_item_field cur new) check_fields.

(** ** The salvage of [analyze_api_response.py]

    What the handler of [json.JSONDecodeError] hands to [json.loads]:
    [content] is the [bytes] read from the file. *)

Fixpoint starts_with (sub l : list byte) : bool :=
  match sub, l with
  | [], _ => true
  | b :: sub', c :: l' => Byte.eqb b c && starts_with sub' l'
  | _ :: _, [] => false
  end.

(** The lowest offset at which [sub] occurs in [l]. *)
Fixpoint find_at (sub l : list byte) : option nat :=
  if starts_with sub l then Some 0%nat
  else match l with
       | [] => None
       | _ :: l' => option_map S (find_at sub l')
       end.

(** [content.find(sub, start)]: a negative [start] counts from the end;
    the answer is [-1] when [sub] does not occur at or after [start]. *)
Definition bytes_find (content sub : list byte) (start : Z) : Z :=
  let len := Z.of_nat (length content) in
  let start := if (start <? 0)%Z then Z.max 0 (start + len) else start in
  if (len <? start)%Z then (-1)%Z
  else match find_at sub (drop (Z.to_nat start) content) with
       | Some k => (start + Z.of_nat k)%Z
       | None => (-1)%Z
       end.

(** [content[lo:hi]] *)
Definition bytes_slice (content : list byte) (lo hi : Z) : list byte :=
  let len := Z.of_nat (length content) in
  let clip i := if (i <? 0)%Z then Z.max 0 (i + len) else Z.min i len in
  take (Z.to_nat (clip hi) - Z.to_nat (clip lo)) (drop (Z.to_nat (clip lo)) content).

(** The four literals of the handler: an opening brace and the quoted
    word type; a closing brace, a closing bracket, a comma and a double
    quote; an opening brace, the quoted word feeds, a colon and an opening
    bracket; a closing bracket and a closing brace. *)
Definition type_marker : list byte := [x7b; x22; x74; x79; x70; x65; x22].
Definition close_marker : list byte := [x7d; x5d; x2c; x22].
Definition feeds_open : list byte :=
  [x7b; x22; x66; x65; x65; x64; x73; x22; x3a; x5b].
Definition feeds_close : list byte := [x5d; x7d].

(** [partial], when the guard [start > 0 and end > start] holds. *)
Definition salvage (content : list byte) : option (list byte) :=
  let start := bytes_find content type_marker 0 in
  let end_ := (bytes_find content close_marker start + 2)%Z in
  if (0 <? start)%Z && (start <? end_)%Z
  then Some (feeds_open ++ bytes_slice content start end_ ++ feeds_close)
  else None.

(** [sub] occurs in [l] at offset [k], and at no lower offset. *)
Definition occurs_at (sub l : list byte) (k : nat) : Prop :=
  (k <= length l)%nat ∧ ∃ after, drop k l = sub ++ after.

Definition first_occurrence (sub l : list byte) (k : nat) : Prop :=
  occurs_at sub l k ∧ ∀ k', (k' < k)%nat -> ¬ occurs_at sub l k'.

(** What one iteration of each report loop prints for two dicts. *)
Definition sample_line_dict (fields1 fields2 : list (string * JsonValue))
    (key : string) : list SampleLine :=
  match lookup_field key fields1, lookup_field key fields2 with
  | Some curr_val, Some new_val =>
      if py_eq curr_val new_val then [] else [ValueChanged key curr_val new_val]
  | Some curr_val, None => [MissingInNew key curr_val]
  | None, Some new_val => [MissingInCurrent key new_val]
  | None, None => []
  end.

Definition check_line_dict (fields1 fields2 : list (string * JsonValue))
    (field : string) : list FieldLine :=
  match lookup_field field fields1, lookup_field field fields2 with
  | Some curr_val, Some new_val =>
      if String.eqb (type_name curr_val) (type_name new_val) then []
      else [FieldTypeMismatch field (type_name curr_val) (type_name new_val)]
  | Some _, None => [PresenceMismatch field true false]
  | None, Some _ => [PresenceMismatch field false true]
  | None, None => []
  end.

(** [None], a [bool] or a number: a value that [in] cannot search. *)
Definition no_members (v : JsonValue) : bool :=
  match v with
  | JNone | JBool _ | JInt _ | JFloat _ => true
  | _ => false
  end.

(** The keys of every dict inside the value are pairwise distinct, as
    they are in every value that [json.load] builds. *)
Fixpoint unique_keys (v : JsonValue) : bool :=
  match v with
  | JList items => forallb unique_keys items
  | JDict fields =>
      bool_decide (NoDup (map fst fields))
      && forallb (fun kv => unique_keys (snd kv)) fields
  | _ => true
  end.

(** ** Reading the records *)

(** The record that the call with its two inputs exchanged reports. *)
Definition mirror (r : DiffRecord) : DiffRecord :=
  match r with
  | KeyOnlyInLeft p ks => KeyOnlyInRight p ks
  | KeyOnlyInRight p ks => KeyOnlyInLeft p ks
  | TypeMismatch p type1 type2 => TypeMismatch p type2 type1
  | LengthMismatch p len1 len2 => LengthMismatch p len2 len1
  | ValueMismatch p val1 val2 => ValueMismatch p val2 val1
  end.

(** What a record says is the case. *)
Definition record_ok (r : DiffRecord) : Prop :=
  match r with
  | KeyOnlyInLeft _ ks | KeyOnlyInRight _ ks =>
      ks ≠ [] ∧ Sorted String.le ks ∧ NoDup ks
  | TypeMismatch _ type1 type2 =>
      type1 ≠ type2 ∧ ∃ val1 val2, type1 = type_name val1 ∧ type2 = type_name val2
  | LengthMismatch _ len1 len2 => len1 ≠ len2
  | ValueMismatch _ val1 val2 =>
      type_name val1 = type_name val2
      ∧ is_scalar val1 = true ∧ is_scalar val2 = true
      ∧ py_eq val1 val2 = false
  end.

(** Two dicts with the same keys and the same value at every key that is
    not an ignored key. *)
Definition agree_off_ignored (fields fields' : list (string * JsonValue))
  : Prop :=
  ∀ key,
    (is_Some (lookup_field key fields) ↔ is_Some (lookup_field key fields'))
    ∧ (key ∉ ignored_keys ->
       lookup_field key fields = lookup_field key fields').

(** * Properties *)

(** Closes a goal from the membership [H] of a record in a list that
    holds no record of its kind. *)
Ltac no_such_record H :=
  repeat first
    [ by apply elem_of_nil in H
    | apply elem_of_cons in H as [ H | H ]; [ discriminate H | ]
    | match type of H with
      | context [if ?c then _ else _] => destruct c
      end ].

(** ** Structural induction on values *)

Lemma JsonValue_nested_ind (P : JsonValue -> Prop) :
  P JNone ->
  (∀ b, P (JBool b)) ->
  (∀ n, P (JInt n)) ->
  (∀ f, P (JFloat f)) ->
  (∀ s, P (JStr s)) ->
  (∀ items, Forall P items -> P (JList items)) ->
  (∀ fields, Forall (fun kv => P (snd kv)) fields -> P (JDict fields)) ->
  ∀ v, P v.
Proof.
  intros HNone HBool HInt HFloat HStr HList HDict.
  fix IH 1. intros [ | b | n | f | s | items | fields ].
  - exact HNone.
  - apply HBool.
  - apply HInt.
  - apply HFloat.
  - apply HStr.
  - apply HList. induction items as [ | x items IHitems ]; constructor;
      [ apply IH | exact IHitems ].
  - apply HDict. induction fields as [ | [k x] fields IHfields ]; constructor;
      [ apply IH | exact IHfields ].
Qed.

(** The recursion of [compare_objects] goes from a dict to the values of
    its fields and to the first element of a field that is a list. *)
Lemma compare_descent_ind (P : JsonValue -> Prop) :
  (∀ v,
      (∀ fields key val1, v = JDict fields -> (key, val1) ∈ fields ->
         P val1 ∧ ∀ x l, val1 = JList (x :: l) -> P x) ->
      P v) ->
  ∀ v, P v.
Proof.
  intros step v.
  enough (P v ∧ ∀ x l, v = JList (x :: l) -> P x) as [Hv _] by exact Hv.
  induction v as [ | | | | | items IHitems | fields IHfields ] using JsonValue_nested_ind;
    try solve [ split; [ apply step; intros ? ? ? [=] | intros ? ? [=] ] ].
  - split.
    + apply step. intros ? ? ? [=].
    + intros x l [= ->]. apply Forall_cons_1 in IHitems as [[Hx _] _]. exact Hx.
  - split; [ | intros ? ? [=] ].
    apply step. intros fields' key val1 [= <-] Hin.
    rewrite Forall_forall in IHfields. exact (IHfields _ Hin).
Qed.

(** ** The loop combinator *)

Lemma for_each_app {A B} (body : A -> result (list B)) l1 l2 :
  for_each body (l1 ++ l2) =
  (ds1 ← for_each body l1; ds2 ← for_each body l2; Ok (ds1 ++ ds2)).
Proof.
  induction l1 as [ | x l1 IH ]; simpl.
  - destruct (for_each body l2); reflexivity.
  - destruct (body x) as [ ds | e ]; simpl; [ | reflexivity ].
    rewrite IH. destruct (for_each body l1) as [ ds1 | e ]; simpl; [ | reflexivity ].
    destruct (for_each body l2) as [ ds2 | e ]; simpl; [ | reflexivity ].
    by rewrite (assoc_L (++)).
Qed.

Lemma for_each_Ok {A B} (body : A -> result (list B)) l :
  (∀ x, x ∈ l -> ∃ ds, body x = Ok ds) ->
  ∃ dss, Forall2 (fun x ds => body x = Ok ds) l dss
         ∧ for_each body l = Ok (concat dss).
Proof.
  induction l as [ | x l IH ]; intros Hbody.
  - exists []. split; [ constructor | reflexivity ].
  - destruct (Hbody x) as [ds Hds]; [ left | ].
    destruct IH as (dss & Hall & Hdss).
    { intros y Hy. apply Hbody. by right. }
    exists (ds :: dss). split; [ by constructor | ].
    simpl. rewrite Hds. simpl. rewrite Hdss. reflexivity.
Qed.

Lemma for_each_ext {A B} (body1 body2 : A -> result (list B)) l :
  (∀ x, x ∈ l -> body1 x = body2 x) ->
  for_each body1 l = for_each body2 l.
Proof.
  induction l as [ | x l IH ]; intros Hext; [ reflexivity | ].
  simpl. rewrite (Hext x) by left. rewrite IH; [ reflexivity | ].
  intros y Hy. apply Hext. by right.
Qed.

(** ** Dicts and key sets *)

Lemma getitem_lookup {A} fields key (k : JsonValue -> result A) :
  getitem (JDict fields) key k =
  match lookup_field key fields with
  | Some v => k v
  | None => Raise (KeyError key)
  end.
Proof.
  simpl. induction fields as [ | [key' v] fields IH ]; simpl; [ reflexivity | ].
  destruct (String.eqb key' key); [ reflexivity | exact IH ].
Qed.

Lemma lookup_field_elem_of key fields v :
  lookup_field key fields = Some v -> (key, v) ∈ fields.
Proof.
  induction fields as [ | [key' v'] fields IH ]; simpl; [ discriminate | ].
  destruct (String.eqb_spec key' key) as [ -> | _ ].
  - intros [= ->]. left.
  - intros H. right. auto.
Qed.

Lemma elem_of_keys_of_dict key fields :
  key ∈ keys_of (JDict fields) ↔ is_Some (lookup_field key fields).
Proof.
  simpl. rewrite elem_of_list_to_set.
  induction fields as [ | [key' v'] fields IH ]; simpl.
  - rewrite elem_of_nil. split; [ tauto | intros [? [=]] ].
  - rewrite elem_of_cons, IH. simpl.
    destruct (String.eqb_spec key' key) as [ -> | Hne ].
    + split; [ eauto | tauto ].
    + split; [ intros [ -> | H ]; [ congruence | exact H ] | tauto ].
Qed.

Lemma elem_of_keys_of key obj :
  key ∈ keys_of obj -> ∃ fields v, obj = JDict fields ∧ lookup_field key fields = Some v.
Proof.
  destruct obj as [ | | | | | | fields ]; simpl;
    try (intros H; by apply not_elem_of_empty in H).
  intros H. apply (elem_of_keys_of_dict key fields) in H as [v Hv]. eauto.
Qed.

Lemma keys_of_not_dict obj : is_dict obj = false -> keys_of obj = ∅.
Proof. by destruct obj. Qed.

(** ** Set iteration *)

Lemma valid_iter_elem_of iter s key :
  valid_iter iter -> key ∈ iter s ↔ key ∈ s.
Proof. intros Hiter. rewrite (Hiter s). apply elem_of_elements. Qed.

Lemma valid_iter_empty iter : valid_iter iter -> iter ∅ = [].
Proof.
  intros Hiter. apply Permutation_nil_r. rewrite (Hiter ∅).
  by rewrite elements_empty.
Qed.

Lemma valid_iter_split iter s key :
  valid_iter iter -> key ∈ s ->
  ∃ l1 l2, iter s = l1 ++ key :: l2 ∧ (key ∉ l1) ∧ (key ∉ l2).
Proof.
  intros Hiter Hkey.
  assert (NoDup (iter s)) as Hnd by (rewrite (Hiter s); apply NoDup_elements).
  apply (valid_iter_elem_of iter s key Hiter) in Hkey.
  apply list_elem_of_split in Hkey as (l1 & l2 & Heq).
  exists l1, l2. rewrite Heq in Hnd |- *.
  apply NoDup_app in Hnd as (_ & Hl1 & Hl2).
  apply NoDup_cons in Hl2 as [Hl2 _].
  split; [ reflexivity | split; [ | exact Hl2 ] ].
  intros Hin. apply (Hl1 _ Hin). left.
Qed.

Lemma valid_iter_elements : valid_iter elements.
Proof. intros s. reflexivity. Qed.

Lemma valid_iter_sorted : valid_iter sorted.
Proof. intros s. apply merge_sort_Permutation. Qed.

(** ** Unfolding [compare_objects] *)

Lemma compare_objects_unfold iter obj1 obj2 path :
  compare_objects iter obj1 obj2 path =
  (ds ← for_each (loop_body (compare_objects iter) obj1 obj2 path)
                 (iter (keys_of obj1 ∩ keys_of obj2));
   Ok (key_only_records obj1 obj2 path ++ ds)).
Proof. destruct obj1; reflexivity. Qed.

(** The loop body at a key that both dicts have. *)
Lemma loop_body_common self fields1 fields2 path key val1 val2 :
  lookup_field key fields1 = Some val1 ->
  lookup_field key fields2 = Some val2 ->
  loop_body self (JDict fields1) (JDict fields2) path key =
  if key_in key ignored_keys then Ok []
  else match compare_field_types val1 val2 (new_path_of path key) with
       | Some type_diff => Ok [type_diff]
       | None => compare_values self key val1 val2 (new_path_of path key)
       end.
Proof.
  intros H1 H2. unfold loop_body.
  rewrite getitem_lookup, H1, getitem_lookup, H2. reflexivity.
Qed.

Lemma compare_field_types_None val1 val2 path :
  compare_field_types val1 val2 path = None ↔ type_name val1 = type_name val2.
Proof.
  unfold compare_field_types.
  destruct (String.eqb_spec (type_name val1) (type_name val2)); simpl;
    split; intros; congruence.
Qed.

Lemma compare_field_types_Some val1 val2 path :
  type_name val1 ≠ type_name val2 ->
  compare_field_types val1 val2 path =
  Some (TypeMismatch path (type_name val1) (type_name val2)).
Proof.
  intros Hne. unfold compare_field_types.
  destruct (String.eqb_spec (type_name val1) (type_name val2)); simpl;
    [ contradiction | reflexivity ].
Qed.

Lemma compare_values_dicts self key fields1 fields2 new_path :
  compare_values self key (JDict fields1) (JDict fields2) new_path
  = self (JDict fields1) (JDict fields2) new_path.
Proof. reflexivity. Qed.

Lemma compare_values_lists self key l1 l2 new_path :
  compare_values self key (JList l1) (JList l2) new_path =
  match l1, l2 with
  | x1 :: _, x2 :: _ =>
      if is_dict x1 && is_dict x2
      then ds ← self x1 x2 (new_path +:+ "[0]");
           Ok (length_records l1 l2 new_path ++ ds)
      else Ok (length_records l1 l2 new_path)
  | _, _ => Ok (length_records l1 l2 new_path)
  end.
Proof.
  unfold compare_values, length_records.
  destruct l1 as [ | x1 l1 ], l2 as [ | x2 l2 ]; try reflexivity.
  simpl. destruct (is_dict x1), (is_dict x2); reflexivity.
Qed.

Lemma value_ne_reached self key val1 val2 new_path :
  type_name val1 = type_name val2 ->
  is_scalar val1 = true ∨ is_scalar val2 = true ->
  is_scalar val1 = true ∧ is_scalar val2 = true ∧
  compare_values self key val1 val2 new_path =
  if value_ne val1 val2 && negb (key_in key value_exempt_keys)
  then Ok [ValueMismatch new_path val1 val2]
  else Ok [].
Proof.
  destruct val1, val2; simpl; try discriminate; intros _ [ [=] | [=] ];
    repeat split; reflexivity.
Qed.

(** ** Totality *)

Lemma compare_objects_Ok iter :
  valid_iter iter ->
  ∀ obj1 obj2 path, ∃ ds, compare_objects iter obj1 obj2 path = Ok ds.
Proof.
  intros Hiter obj1.
  induction obj1 as [obj1 IH] using compare_descent_ind.
  intros obj2 path. rewrite compare_objects_unfold.
  destruct (for_each_Ok (loop_body (compare_objects iter) obj1 obj2 path)
              (iter (keys_of obj1 ∩ keys_of obj2))) as (dss & _ & ->);
    [ | simpl; eauto ].
  intros key Hkey. apply (valid_iter_elem_of iter _ key Hiter) in Hkey.
  apply elem_of_intersection in Hkey as [Hk1 Hk2].
  apply elem_of_keys_of in Hk1 as (fields1 & val1 & -> & Hv1).
  apply elem_of_keys_of in Hk2 as (fields2 & val2 & -> & Hv2).
  rewrite (loop_body_common _ _ _ _ _ _ _ Hv1 Hv2).
  destruct (key_in key ignored_keys); [ eauto | ].
  destruct (compare_field_types val1 val2 (new_path_of path key)) eqn:Hty;
    [ eauto | ].
  destruct (IH fields1 key val1 eq_refl (lookup_field_elem_of _ _ _ Hv1))
    as [IHval IHhead].
  apply compare_field_types_None in Hty.
  destruct val1 as [ | | | | | l1 | ], val2 as [ | | | | | l2 | ];
    simpl in Hty; try discriminate;
    try solve [ simpl; eauto
              | simpl; match goal with |- context [if ?c then _ else _] =>
                         destruct c end; eauto ].
  rewrite compare_values_lists.
  destruct l1 as [ | x1 l1 ], l2 as [ | x2 l2 ]; eauto.
  destruct (is_dict x1 && is_dict x2); eauto.
  destruct (IHhead x1 l1 eq_refl x2 (new_path_of path key +:+ "[0]")) as [ds ->].
  simpl. eauto.
Qed.

Lemma loop_body_Ok iter obj1 obj2 path key :
  valid_iter iter ->
  key ∈ keys_of obj1 ∩ keys_of obj2 ->
  ∃ ds, loop_body (compare_objects iter) obj1 obj2 path key = Ok ds.
Proof.
  intros Hiter Hkey.
  apply elem_of_intersection in Hkey as [Hk1 Hk2].
  apply elem_of_keys_of in Hk1 as (fields1 & val1 & -> & Hv1).
  apply elem_of_keys_of in Hk2 as (fields2 & val2 & -> & Hv2).
  rewrite (loop_body_common _ _ _ _ _ _ _ Hv1 Hv2).
  destruct (key_in key ignored_keys); [ eauto | ].
  destruct (compare_field_types val1 val2 (new_path_of path key)) eqn:Hty;
    [ eauto | ].
  apply compare_field_types_None in Hty.
  destruct val1 as [ | | | | | l1 | ], val2 as [ | | | | | l2 | ];
    simpl in Hty; try discriminate;
    try solve [ simpl; eauto
              | simpl; match goal with |- context [if ?c then _ else _] =>
                         destruct c end; eauto ].
  - rewrite compare_values_lists.
    destruct l1 as [ | x1 l1 ], l2 as [ | x2 l2 ]; eauto.
    destruct (is_dict x1 && is_dict x2); eauto.
    destruct (compare_objects_Ok iter Hiter x1 x2
                (new_path_of path key +:+ "[0]")) as [ds ->].
    simpl. eauto.
  - apply (compare_objects_Ok iter Hiter).
Qed.

(** The result is the records appended before the loop followed by what
    each iteration appends, in iteration order. *)
Lemma compare_objects_decompose iter obj1 obj2 path :
  valid_iter iter ->
  ∃ per_key,
    Forall2 (fun key ds =>
               loop_body (compare_objects iter) obj1 obj2 path key = Ok ds)
            (iter (keys_of obj1 ∩ keys_of obj2)) per_key
    ∧ compare_objects iter obj1 obj2 path
      = Ok (key_only_records obj1 obj2 path ++ concat per_key).
Proof.
  intros Hiter. rewrite compare_objects_unfold.
  destruct (for_each_Ok (loop_body (compare_objects iter) obj1 obj2 path)
              (iter (keys_of obj1 ∩ keys_of obj2))) as (dss & Hall & Heq).
  - intros key Hkey. apply (loop_body_Ok iter); [ exact Hiter | ].
    by apply (valid_iter_elem_of iter _ key Hiter).
  - exists dss. split; [ exact Hall | ]. rewrite Heq. reflexivity.
Qed.

(** A common key is visited exactly once: its records are a contiguous
    block of the result. *)
Lemma compare_objects_visit iter obj1 obj2 path key :
  valid_iter iter ->
  key ∈ keys_of obj1 ∩ keys_of obj2 ->
  ∃ before ds after,
    loop_body (compare_objects iter) obj1 obj2 path key = Ok ds
    ∧ compare_objects iter obj1 obj2 path = Ok (before ++ ds ++ after).
Proof.
  intros Hiter Hkey.
  destruct (valid_iter_split iter _ key Hiter Hkey) as (l1 & l2 & Hsplit & Hl1 & Hl2).
  assert (∀ l, (∀ k, k ∈ l -> k ∈ iter (keys_of obj1 ∩ keys_of obj2)) ->
               ∃ ds, for_each (loop_body (compare_objects iter) obj1 obj2 path) l
                     = Ok ds) as Hpart.
  { intros l Hl.
    destruct (for_each_Ok (loop_body (compare_objects iter) obj1 obj2 path) l)
      as (dss & _ & Heq); [ | eauto ].
    intros k Hk. apply (loop_body_Ok iter); [ exact Hiter | ].
    apply (valid_iter_elem_of iter _ k Hiter). auto. }
  destruct (Hpart l1) as [ds1 Hds1].
  { intros k Hk. rewrite Hsplit. apply elem_of_app. by left. }
  destruct (Hpart l2) as [ds2 Hds2].
  { intros k Hk. rewrite Hsplit. apply elem_of_app. right. by right. }
  destruct (loop_body_Ok iter obj1 obj2 path key Hiter Hkey) as [ds Hds].
  exists (key_only_records obj1 obj2 path ++ ds1), ds, ds2.
  split; [ exact Hds | ].
  rewrite compare_objects_unfold, Hsplit, for_each_app, Hds1.
  simpl. rewrite Hds. simpl. rewrite Hds2. simpl.
  by rewrite <- (assoc_L (++)).
Qed.

(** ** Paths of the records *)

Lemma string_app_cons c (s1 s2 : string) :
  String c s1 +:+ s2 = String c (s1 +:+ s2).
Proof. reflexivity. Qed.

Lemma string_app_assoc (s1 s2 s3 : string) :
  (s1 +:+ s2) +:+ s3 = s1 +:+ (s2 +:+ s3).
Proof.
  induction s1 as [ | c s1 IH ]; [ reflexivity | ].
  by rewrite !string_app_cons, IH.
Qed.

Lemma string_app_nil_r (s : string) : s +:+ "" = s.
Proof.
  induction s as [ | c s IH ]; [ reflexivity | ].
  by rewrite string_app_cons, IH.
Qed.

Lemma string_app_length (s1 s2 : string) :
  String.length (s1 +:+ s2) = String.length s1 + String.length s2.
Proof.
  induction s1 as [ | c s1 IH ]; [ reflexivity | ].
  rewrite string_app_cons. simpl. by rewrite IH.
Qed.

Lemma string_app_nonempty (s1 s2 : string) : s1 ≠ "" -> s1 +:+ s2 ≠ "".
Proof. destruct s1; [ contradiction | discriminate ]. Qed.

Lemma below_neq path r : below path r -> diff_path r ≠ path.
Proof.
  intros (suffix & Hne & Heq) Hpath. rewrite Hpath in Heq.
  apply (f_equal String.length) in Heq. rewrite string_app_length in Heq.
  destruct suffix; [ contradiction | simpl in Heq; lia ].
Qed.

Lemma at_or_below_trans path suffix r :
  suffix ≠ "" -> at_or_below (path +:+ suffix) r -> below path r.
Proof.
  intros Hne [ [_ Heq] | (suffix' & Hne' & Heq) ].
  - exists suffix. split; assumption.
  - exists (suffix +:+ suffix'). split.
    + by apply string_app_nonempty.
    + by rewrite <- string_app_assoc.
Qed.

(** The path of a key is strictly below a non-empty path of its dict. *)
Lemma new_path_of_below path key :
  path ≠ "" -> new_path_of path key = path +:+ ("." +:+ key).
Proof.
  intros Hne. unfold new_path_of.
  destruct (String.eqb_spec path ""); [ contradiction | reflexivity ].
Qed.

Lemma new_path_of_nonempty path key :
  key ≠ "" -> new_path_of path key ≠ "".
Proof.
  intros Hne. unfold new_path_of.
  destruct (String.eqb_spec path "") as [ | Hp ]; [ exact Hne | ].
  by apply string_app_nonempty.
Qed.

(** Every record of a call at a non-empty [path] is at or below [path]. *)
Lemma compare_objects_paths iter :
  valid_iter iter ->
  ∀ obj1 obj2 path ds,
    path ≠ "" ->
    compare_objects iter obj1 obj2 path = Ok ds ->
    Forall (at_or_below path) ds.
Proof.
  intros Hiter obj1.
  induction obj1 as [obj1 IH] using compare_descent_ind.
  intros obj2 path ds Hpath Hrun.
  destruct (compare_objects_decompose iter obj1 obj2 path Hiter)
    as (per_key & Hall & Heq).
  rewrite Heq in Hrun. injection Hrun as <-. clear Heq.
  apply Forall_app. split.
  { unfold key_only_records. apply Forall_app.
    split; case_bool_decide; repeat constructor. }
  apply Forall_concat.
  assert (Forall (fun key => key ∈ keys_of obj1 ∩ keys_of obj2)
                 (iter (keys_of obj1 ∩ keys_of obj2))) as Hkeys.
  { apply Forall_forall. intros key Hkey.
    by apply (valid_iter_elem_of iter _ key Hiter). }
  induction Hall as [ | key dsk keys dss Hbody Hall IHall ]; [ constructor | ].
  apply Forall_cons_1 in Hkeys as [Hkey Hkeys].
  constructor; [ | exact (IHall Hkeys) ].
  clear IHall Hall Hkeys.
  apply elem_of_intersection in Hkey as [Hk1 Hk2].
  apply elem_of_keys_of in Hk1 as (fields1 & val1 & -> & Hv1).
  apply elem_of_keys_of in Hk2 as (fields2 & val2 & -> & Hv2).
  rewrite (loop_body_common _ _ _ _ _ _ _ Hv1 Hv2) in Hbody.
  rewrite (new_path_of_below path key Hpath) in Hbody.
  assert (∀ r, diff_path r = path +:+ "." +:+ key -> at_or_below path r)
    as Hhere.
  { intros r Hr. right. exists ("." +:+ key). split; [ discriminate | exact Hr ]. }
  assert (∀ r s, at_or_below ((path +:+ "." +:+ key) +:+ s) r ->
                 at_or_below path r) as Hdeep.
  { intros r s Hr. right. apply (at_or_below_trans path (("." +:+ key) +:+ s)).
    - discriminate.
    - by rewrite <- string_app_assoc. }
  destruct (key_in key ignored_keys); [ injection Hbody as <-; constructor | ].
  destruct (compare_field_types val1 val2 _) as [ type_diff | ] eqn:Hty.
  { injection Hbody as <-. unfold compare_field_types in Hty.
    destruct (negb _); [ | discriminate ]. injection Hty as <-.
    constructor; [ by apply Hhere | constructor ]. }
  destruct (IH fields1 key val1 eq_refl (lookup_field_elem_of _ _ _ Hv1))
    as [IHval IHhead].
  apply compare_field_types_None in Hty.
  destruct val1 as [ | | | | | l1 | ], val2 as [ | | | | | l2 | ];
    simpl in Hty; try discriminate;
    try solve [ simpl in Hbody;
                match type of Hbody with
                | context [if ?c then _ else _] => destruct c
                | _ => idtac
                end; injection Hbody as <-;
                first [ constructor; [ by apply Hhere | constructor ]
                      | constructor ] ].
  - rewrite compare_values_lists in Hbody.
    assert (Forall (at_or_below path)
              (length_records l1 l2 (path +:+ "." +:+ key))) as Hlen.
    { unfold length_records.
      destruct (negb _); constructor; [ by apply Hhere | constructor ]. }
    destruct l1 as [ | x1 l1 ], l2 as [ | x2 l2 ];
      try (injection Hbody as <-; exact Hlen).
    destruct (is_dict x1 && is_dict x2);
      [ | injection Hbody as <-; exact Hlen ].
    destruct (compare_objects iter x1 x2 _) as [ ds | e ] eqn:Hrec;
      [ | discriminate ].
    simpl in Hbody. injection Hbody as <-.
    apply Forall_app. split; [ exact Hlen | ].
    apply (IHhead x1 l1 eq_refl) in Hrec;
      [ | by repeat apply string_app_nonempty ].
    eapply Forall_impl; [ exact Hrec | ]. intros r. apply Hdeep.
  - simpl in Hbody. apply IHval in Hbody;
      [ | by repeat apply string_app_nonempty ].
    eapply Forall_impl; [ exact Hbody | ]. intros r Hr.
    apply (Hdeep r ""). by rewrite string_app_nil_r.
Qed.

(** ** Sorted key lists *)

Lemma sorted_Sorted s : Sorted String.le (sorted s).
Proof. apply Sorted_merge_sort. apply _. Qed.

Lemma sorted_Permutation s : sorted s ≡ₚ elements s.
Proof. apply merge_sort_Permutation. Qed.

Lemma elem_of_sorted key s : key ∈ sorted s ↔ key ∈ s.
Proof. rewrite sorted_Permutation. apply elem_of_elements. Qed.

Lemma elem_of_key_in key l : key_in key l = true ↔ key ∈ l.
Proof.
  unfold key_in. induction l as [ | k l IH ]; simpl.
  - rewrite elem_of_nil. split; [ discriminate | tauto ].
  - rewrite elem_of_cons, <- IH.
    destruct (String.eqb_spec key k) as [ -> | Hne ]; simpl; [ tauto | ].
    split; [ tauto | intros [ ? | ? ]; [ contradiction | assumption ] ].
Qed.

(** No key is both ignored and value-exempt. *)
Lemma value_exempt_not_ignored key :
  key ∈ value_exempt_keys -> key_in key ignored_keys = false ∧ key ≠ "".
Proof.
  unfold value_exempt_keys. rewrite !elem_of_cons, elem_of_nil.
  intros [ -> | [ -> | [ -> | [ -> | [ -> | [] ] ] ] ] ]; split;
    solve [ reflexivity | discriminate ].
Qed.

(** ** Comparing a value with itself *)

Lemma SFeqb_refl f : f ≠ S754_nan -> SFeqb f f = true.
Proof.
  intros Hnan. unfold SFeqb, SFcompare.
  destruct f as [ s | s | | s m e ]; try (destruct s; reflexivity).
  - contradiction.
  - destruct s; rewrite Z.compare_refl, Pos.compare_cont_refl; reflexivity.
Qed.

Lemma value_ne_same v :
  nan_free v = true -> is_scalar v = true -> value_ne v v = false.
Proof.
  destruct v as [ | b | n | f | s | | ]; simpl; try discriminate; intros Hnan _.
  - reflexivity.
  - by destruct b.
  - by rewrite Z.eqb_refl.
  - rewrite SFeqb_refl; [ reflexivity | ]. intros ->. discriminate.
  - by rewrite String.eqb_refl.
Qed.

Lemma nan_free_field key fields v :
  nan_free (JDict fields) = true -> (key, v) ∈ fields -> nan_free v = true.
Proof.
  simpl. rewrite forallb_forall. intros Hall Hin.
  apply (Hall (key, v)). by apply list_elem_of_In.
Qed.

Lemma for_each_nothing {A B} (body : A -> result (list B)) l :
  (∀ x, x ∈ l -> body x = Ok []) -> for_each body l = Ok [].
Proof.
  induction l as [ | x l IH ]; intros Hbody; [ reflexivity | ].
  simpl. rewrite (Hbody x) by left. simpl. rewrite IH; [ reflexivity | ].
  intros y Hy. apply Hbody. by right.
Qed.

Lemma key_only_records_same obj path : key_only_records obj obj path = [].
Proof.
  unfold key_only_records, only_in_current, only_in_new.
  rewrite difference_diag_L. by rewrite bool_decide_eq_false_2 by auto.
Qed.

Lemma compare_objects_same iter :
  valid_iter iter ->
  ∀ X path, nan_free X = true -> compare_objects iter X X path = Ok [].
Proof.
  intros Hiter X.
  induction X as [X IH] using compare_descent_ind.
  intros path Hnan. rewrite compare_objects_unfold, key_only_records_same.
  rewrite for_each_nothing; [ reflexivity | ].
  intros key Hkey. apply (valid_iter_elem_of iter _ key Hiter) in Hkey.
  apply elem_of_intersection in Hkey as [Hk _].
  apply elem_of_keys_of in Hk as (fields & v & -> & Hv).
  rewrite (loop_body_common _ _ _ _ _ _ _ Hv Hv).
  destruct (key_in key ignored_keys); [ reflexivity | ].
  rewrite (proj2 (compare_field_types_None v v _) eq_refl).
  pose proof (lookup_field_elem_of _ _ _ Hv) as Hin.
  destruct (IH fields key v eq_refl Hin) as [IHval IHhead].
  pose proof (nan_free_field _ _ _ Hnan Hin) as Hnv.
  destruct v as [ | b | n | f | s | l | fs ].
  1-5: (match goal with
        | |- context [compare_values _ _ ?v _ _] =>
            destruct (value_ne_reached (compare_objects iter) key v v
                        (new_path_of path key) eq_refl (or_introl eq_refl))
              as (_ & _ & ->)
        end;
        rewrite value_ne_same by (exact Hnv || reflexivity); reflexivity).
  - rewrite compare_values_lists. unfold length_records.
    rewrite Nat.eqb_refl. simpl negb. cbv iota.
    destruct l as [ | x l ]; [ reflexivity | ].
    destruct (is_dict x); simpl; [ | reflexivity ].
    rewrite (IHhead x l eq_refl); [ reflexivity | ].
    simpl in Hnv. by apply andb_prop in Hnv as [Hx _].
  - simpl. by apply IHval.
Qed.

(** ** One iteration of the loop *)

Lemma common_key key fields1 fields2 val1 val2 :
  lookup_field key fields1 = Some val1 ->
  lookup_field key fields2 = Some val2 ->
  key ∈ keys_of (JDict fields1) ∩ keys_of (JDict fields2).
Proof.
  intros H1 H2. apply elem_of_intersection.
  split; apply elem_of_keys_of_dict; eauto.
Qed.

Lemma compare_values_list_branch iter key l1 l2 new_path :
  valid_iter iter ->
  ∃ nested,
    first_element_records iter l1 l2 new_path nested
    ∧ Forall (below new_path) nested
    ∧ compare_values (compare_objects iter) key (JList l1) (JList l2) new_path
      = Ok (length_records l1 l2 new_path ++ nested).
Proof.
  intros Hiter. rewrite compare_values_lists. unfold first_element_records.
  destruct l1 as [ | x1 l1 ], l2 as [ | x2 l2 ];
    try (exists []; by rewrite (right_id_L [] (++))).
  destruct (is_dict x1 && is_dict x2);
    [ | exists []; by rewrite (right_id_L [] (++)) ].
  destruct (compare_objects_Ok iter Hiter x1 x2 (new_path +:+ "[0]"))
    as [nested Hrec].
  exists nested. rewrite Hrec. repeat split.
  apply (compare_objects_paths iter Hiter) in Hrec;
    [ | by destruct new_path ].
  eapply Forall_impl; [ exact Hrec | ].
  intros r. by apply at_or_below_trans.
Qed.

Lemma loop_body_shape iter fields1 fields2 path key val1 val2 :
  valid_iter iter ->
  lookup_field key fields1 = Some val1 ->
  lookup_field key fields2 = Some val2 ->
  key_in key ignored_keys = false ->
  ∃ deeper,
    loop_body (compare_objects iter) (JDict fields1) (JDict fields2) path key
    = Ok (own_records key val1 val2 (new_path_of path key) ++ deeper)
    ∧ (new_path_of path key ≠ "" ->
       Forall (at_or_below (new_path_of path key)) deeper).
Proof.
  intros Hiter Hv1 Hv2 Hign.
  rewrite (loop_body_common _ _ _ _ _ _ _ Hv1 Hv2), Hign. unfold own_records.
  destruct (compare_field_types val1 val2 _) as [ type_diff | ] eqn:Hty.
  { exists []. split; [ reflexivity | constructor ]. }
  apply compare_field_types_None in Hty.
  destruct val1 as [ | | | | | l1 | ], val2 as [ | | | | | l2 | ];
    simpl in Hty; try discriminate;
    try solve [ exists []; split; [ | constructor ];
                rewrite (right_id_L [] (++)); simpl;
                first [ reflexivity
                      | match goal with |- context [if ?c then _ else _] =>
                          destruct c end; reflexivity ] ].
  - destruct (compare_values_list_branch iter key l1 l2
                (new_path_of path key) Hiter) as (nested & _ & Hbelow & ->).
    exists nested. split; [ reflexivity | ]. intros _.
    eapply Forall_impl; [ exact Hbelow | ]. intros r Hr. by right.
  - destruct (compare_objects_Ok iter Hiter (JDict fields) (JDict fields0)
                (new_path_of path key)) as [nested Hrec].
    exists nested. simpl compare_values. split; [ exact Hrec | ].
    intros Hne. by apply (compare_objects_paths iter Hiter) in Hrec.
Qed.

(** A record of another kind than the two key lists, found among records
    at or below [path], is strictly below it. *)
Lemma at_or_below_not_here path r ds :
  Forall (at_or_below path) ds -> r ∈ ds -> is_key_only r = false ->
  diff_path r ≠ path.
Proof.
  intros Hall Hin Hkind. rewrite Forall_forall in Hall.
  destruct (Hall r Hin) as [ [Hk _] | Hbelow ]; [ congruence | ].
  by apply below_neq.
Qed.

(** ** Independence of the iteration order *)

Lemma concat_per_key {A B} (body : A -> result (list B)) l per_key :
  Forall2 (fun x ds => body x = Ok ds) l per_key ->
  concat per_key
  = flat_map (fun x => match body x with Ok ds => ds | Raise _ => [] end) l.
Proof.
  induction 1 as [ | x ds l per_key Hx _ IH ]; [ reflexivity | ].
  simpl. by rewrite Hx, IH.
Qed.

Lemma flat_map_pointwise_perm {A B} (f g : A -> list B) l :
  (∀ x, x ∈ l -> f x ≡ₚ g x) -> flat_map f l ≡ₚ flat_map g l.
Proof.
  induction l as [ | x l IH ]; intros Hfg; [ reflexivity | ].
  simpl. rewrite (Hfg x) by left. rewrite IH; [ reflexivity | ].
  intros y Hy. apply Hfg. by right.
Qed.

Lemma flat_map_perm {A B} (f : A -> list B) l1 l2 :
  l1 ≡ₚ l2 -> flat_map f l1 ≡ₚ flat_map f l2.
Proof.
  induction 1 as [ | x l1 l2 _ IH | x y l | l1 l2 l3 _ IH1 _ IH2 ]; simpl.
  - reflexivity.
  - by rewrite IH.
  - rewrite !(assoc_L (++)). by rewrite (comm (++) (f y) (f x)).
  - by rewrite IH1.
Qed.

(** Two runs that iterate their sets in different orders report the same
    records, up to their order. *)
Lemma compare_objects_any_order iter1 iter2 :
  valid_iter iter1 -> valid_iter iter2 ->
  ∀ obj1 obj2 path ds1 ds2,
    compare_objects iter1 obj1 obj2 path = Ok ds1 ->
    compare_objects iter2 obj1 obj2 path = Ok ds2 ->
    ds1 ≡ₚ ds2.
Proof.
  intros Hiter1 Hiter2 obj1.
  induction obj1 as [obj1 IH] using compare_descent_ind.
  intros obj2 path ds1 ds2 Hrun1 Hrun2.
  destruct (compare_objects_decompose iter1 obj1 obj2 path Hiter1)
    as (per_key1 & Hall1 & Heq1).
  destruct (compare_objects_decompose iter2 obj1 obj2 path Hiter2)
    as (per_key2 & Hall2 & Heq2).
  rewrite Heq1 in Hrun1. injection Hrun1 as <-.
  rewrite Heq2 in Hrun2. injection Hrun2 as <-.
  apply Permutation_app_head.
  rewrite (concat_per_key _ _ _ Hall1), (concat_per_key _ _ _ Hall2).
  rewrite (flat_map_perm _ (iter1 (keys_of obj1 ∩ keys_of obj2))
             (iter2 (keys_of obj1 ∩ keys_of obj2)))
    by (by rewrite (Hiter1 _), (Hiter2 _)).
  apply flat_map_pointwise_perm. intros key Hkey.
  apply (valid_iter_elem_of iter2 _ key Hiter2) in Hkey.
  apply elem_of_intersection in Hkey as [Hk1 Hk2].
  apply elem_of_keys_of in Hk1 as (fields1 & val1 & -> & Hv1).
  apply elem_of_keys_of in Hk2 as (fields2 & val2 & -> & Hv2).
  rewrite !(loop_body_common _ _ _ _ _ _ _ Hv1 Hv2).
  destruct (key_in key ignored_keys); [ reflexivity | ].
  destruct (compare_field_types val1 val2 (new_path_of path key)) eqn:Hty;
    [ reflexivity | ].
  destruct (IH fields1 key val1 eq_refl (lookup_field_elem_of _ _ _ Hv1))
    as [IHval IHhead].
  apply compare_field_types_None in Hty.
  destruct val1 as [ | | | | | l1 | ], val2 as [ | | | | | l2 | ];
    simpl in Hty; try discriminate; try reflexivity.
  - rewrite !compare_values_lists.
    destruct l1 as [ | x1 l1 ], l2 as [ | x2 l2 ]; try reflexivity.
    destruct (is_dict x1 && is_dict x2); [ | reflexivity ].
    destruct (compare_objects_Ok iter1 Hiter1 x1 x2
                (new_path_of path key +:+ "[0]")) as [d1 Hd1].
    destruct (compare_objects_Ok iter2 Hiter2 x1 x2
                (new_path_of path key +:+ "[0]")) as [d2 Hd2].
    rewrite Hd1, Hd2. simpl. apply Permutation_app_head.
    exact (IHhead x1 l1 eq_refl _ _ _ _ Hd1 Hd2).
  - rewrite !compare_values_dicts.
    destruct (compare_objects_Ok iter1 Hiter1 (JDict fields) (JDict fields0)
                (new_path_of path key)) as [d1 Hd1].
    destruct (compare_objects_Ok iter2 Hiter2 (JDict fields) (JDict fields0)
                (new_path_of path key)) as [d2 Hd2].
    rewrite Hd1, Hd2. exact (IHval _ _ _ _ Hd1 Hd2).
Qed.

(** ** The previews of [analyze_api_response.py] *)

Lemma substring_length (n : nat) (s : string) :
  (n <= String.length s)%nat -> String.length (substring 0 n s) = n.
Proof.
  revert s. induction n as [ | n IH ]; intros s Hn.
  - by destruct s.
  - destruct s as [ | c s ]; simpl in *; [ lia | ].
    rewrite IH; [ reflexivity | lia ].
Qed.

Lemma elem_of_field_keys key fields :
  key ∈ map fst fields ↔ is_Some (lookup_field key fields).
Proof.
  rewrite <- (elem_of_keys_of_dict key fields). simpl.
  by rewrite elem_of_list_to_set.
Qed.

Lemma for_each_singletons {A B} (body : A -> result (list B)) (h : A -> B) l :
  (∀ x, x ∈ l -> body x = Ok [h x]) -> for_each body l = Ok (map h l).
Proof.
  induction l as [ | x l IH ]; intros Hbody; [ reflexivity | ].
  simpl. rewrite (Hbody x) by left. simpl. rewrite IH; [ reflexivity | ].
  intros y Hy. apply Hbody. by right.
Qed.

Section Preview.

Variable repr_float : spec_float -> string.
Variable repr_str : string -> string.

Lemma sample_short v :
  (String.length (py_str repr_float repr_str v) <= 50)%nat ->
  sample repr_float repr_str v = py_str repr_float repr_str v.
Proof.
  intros Hlen. unfold sample.
  destruct (Nat.ltb_spec 50 (String.length (py_str repr_float repr_str v)));
    [ lia | reflexivity ].
Qed.

Lemma sample_long v :
  (50 < String.length (py_str repr_float repr_str v))%nat ->
  sample repr_float repr_str v
  = substring 0 50 (py_str repr_float repr_str v) +:+ "..."
  ∧ String.length (sample repr_float repr_str v) = 53.
Proof.
  intros Hlen. unfold sample.
  destruct (Nat.ltb_spec 50 (String.length (py_str repr_float repr_str v)));
    [ | lia ].
  split; [ reflexivity | ].
  rewrite string_app_length, substring_length by lia. reflexivity.
Qed.

Lemma describe_fields_dict fields :
  describe_fields repr_float repr_str (JDict fields)
  = Ok (map (fun key =>
               let value := default JNone (lookup_field key fields) in
               (key, type_name value, sample repr_float repr_str value))
            (sorted_list (map fst fields))).
Proof.
  unfold describe_fields. apply for_each_singletons.
  intros key Hkey. unfold sorted_list in Hkey.
  rewrite merge_sort_Permutation in Hkey.
  apply elem_of_field_keys in Hkey as [value Hvalue].
  by rewrite getitem_lookup, Hvalue.
Qed.

End Preview.

(** ** Sample runs *)

(** Scenarios 1 and 2 of the specification. *)
Example scenario1 :
  compare_objects sorted
    (JDict [("status", JStr "ok"); ("count", JInt 3)])
    (JDict [("status", JStr "ok"); ("count", JInt 3)]) "" = Ok [].
Proof. vm_compute. reflexivity. Qed.

Example scenario2 :
  compare_objects sorted
    (JDict [("feedTitle", JStr "X"); ("lang", JStr "en")])
    (JDict [("feedTitle", JStr "Y")]) ""
  = Ok [KeyOnlyInLeft "" ["lang"];
        ValueMismatch "feedTitle" (JStr "X") (JStr "Y")].
Proof. vm_compute. reflexivity. Qed.

(** * The claims *)

Lemma valid_iter_descending : valid_iter iter_descending.
Proof.
  intros s. unfold iter_descending. rewrite reverse_Permutation.
  apply sorted_Permutation.
Qed.

(** C1, as stated, fails: the common keys are visited in the iteration
    order of the set, which need not be the sorted one. *)
Lemma common_keys_not_sorted :
  compare_objects iter_descending
    (JDict [("a", JInt 1); ("b", JInt 1)])
    (JDict [("a", JInt 2); ("b", JInt 2)]) ""
  = Ok [ValueMismatch "b" (JInt 1) (JInt 2); ValueMismatch "a" (JInt 1) (JInt 2)]
  ∧ ¬ (∀ iter fields1 fields2 path,
          valid_iter iter ->
          let obj1 := JDict fields1 in
          let obj2 := JDict fields2 in
          ∃ per_key,
            Forall2 (fun key ds =>
                       loop_body (compare_objects iter) obj1 obj2 path key = Ok ds)
                    (sorted (keys_of obj1 ∩ keys_of obj2)) per_key
            ∧ compare_objects iter obj1 obj2 path
              = Ok (key_only_records obj1 obj2 path ++ concat per_key)).
Proof.
  split; [ vm_compute; reflexivity | ].
  intros Hclaim.
  destruct (Hclaim iter_descending
              [("a", JInt 1); ("b", JInt 1)] [("a", JInt 2); ("b", JInt 2)] ""
              valid_iter_descending) as (per_key & Hall & Hrun).
  assert (sorted (keys_of (JDict [("a", JInt 1); ("b", JInt 1)])
                  ∩ keys_of (JDict [("a", JInt 2); ("b", JInt 2)]))
          = ["a"; "b"]) as Hkeys by (vm_compute; reflexivity).
  rewrite Hkeys in Hall.
  apply Forall2_cons_inv_l in Hall as (dsa & rest & Ha & Hall & ->).
  apply Forall2_cons_inv_l in Hall as (dsb & rest' & Hb & Hall & ->).
  apply Forall2_nil_inv_l in Hall as ->.
  vm_compute in Ha. injection Ha as <-.
  vm_compute in Hb. injection Hb as <-.
  vm_compute in Hrun. discriminate.
Qed.

(** C1, amended. For two dicts, the result is: the record of the keys only
    in current, if there is any such key, then the record of the keys
    only in new, if any, each with its keys sorted lexicographically;
    then, for each common key in the iteration order of the set
    [keys1 & keys2], the records of that key's iteration.  That order
    visits every common key exactly once: it is a permutation of the
    sorted list of the common keys.  Another iteration order gives the
    same records, in another order. *)
Theorem compare_objects_order iter fields1 fields2 path :
  valid_iter iter ->
  let obj1 := JDict fields1 in
  let obj2 := JDict fields2 in
  let common := keys_of obj1 ∩ keys_of obj2 in
  ∃ per_key,
    Forall2 (fun key ds =>
               loop_body (compare_objects iter) obj1 obj2 path key = Ok ds)
            (iter common) per_key
    ∧ compare_objects iter obj1 obj2 path
      = Ok ((if bool_decide (keys_of obj1 ∖ keys_of obj2 ≠ ∅)
             then [KeyOnlyInLeft path (sorted (keys_of obj1 ∖ keys_of obj2))]
             else [])
            ++ (if bool_decide (keys_of obj2 ∖ keys_of obj1 ≠ ∅)
                then [KeyOnlyInRight path (sorted (keys_of obj2 ∖ keys_of obj1))]
                else [])
            ++ concat per_key)
    ∧ iter common ≡ₚ sorted common
    ∧ NoDup (iter common)
    ∧ Sorted String.le (sorted common)
    ∧ Sorted String.le (sorted (keys_of obj1 ∖ keys_of obj2))
    ∧ Sorted String.le (sorted (keys_of obj2 ∖ keys_of obj1))
    ∧ (∀ iter', valid_iter iter' ->
       ∃ ds ds',
         compare_objects iter obj1 obj2 path = Ok ds
         ∧ compare_objects iter' obj1 obj2 path = Ok ds'
         ∧ ds ≡ₚ ds').
Proof.
  intros Hiter obj1 obj2 common.
  destruct (compare_objects_decompose iter obj1 obj2 path Hiter)
    as (per_key & Hall & Hrun).
  exists per_key. split; [ exact Hall | ].
  split.
  { rewrite Hrun. unfold key_only_records, only_in_current, only_in_new.
    by rewrite <- (assoc_L (++)). }
  split; [ by rewrite (Hiter common), sorted_Permutation | ].
  split; [ rewrite (Hiter common); apply NoDup_elements | ].
  do 3 (split; [ apply sorted_Sorted | ]).
  intros iter' Hiter'.
  destruct (compare_objects_Ok iter Hiter obj1 obj2 path) as [ds Hds].
  destruct (compare_objects_Ok iter' Hiter' obj1 obj2 path) as [ds' Hds'].
  exists ds, ds'. split; [ exact Hds | ]. split; [ exact Hds' | ].
  exact (compare_objects_any_order iter iter' Hiter Hiter' _ _ _ _ _ Hds Hds').
Qed.

Lemma compare_objects_order_witness :
  let obj1 := JDict [("a", JInt 1); ("b", JInt 1); ("c", JNone)] in
  let obj2 := JDict [("a", JInt 2); ("b", JInt 2); ("d", JNone)] in
  let common := keys_of obj1 ∩ keys_of obj2 in
  ∃ per_key,
    Forall2 (fun key ds =>
               loop_body (compare_objects iter_descending) obj1 obj2 "" key = Ok ds)
            (iter_descending common) per_key
    ∧ compare_objects iter_descending obj1 obj2 ""
      = Ok ((if bool_decide (keys_of obj1 ∖ keys_of obj2 ≠ ∅)
             then [KeyOnlyInLeft "" (sorted (keys_of obj1 ∖ keys_of obj2))]
             else [])
            ++ (if bool_decide (keys_of obj2 ∖ keys_of obj1 ≠ ∅)
                then [KeyOnlyInRight "" (sorted (keys_of obj2 ∖ keys_of obj1))]
                else [])
            ++ concat per_key)
    ∧ iter_descending common ≡ₚ sorted common
    ∧ NoDup (iter_descending common)
    ∧ Sorted String.le (sorted common)
    ∧ Sorted String.le (sorted (keys_of obj1 ∖ keys_of obj2))
    ∧ Sorted String.le (sorted (keys_of obj2 ∖ keys_of obj1))
    ∧ (∀ iter', valid_iter iter' ->
       ∃ ds ds',
         compare_objects iter_descending obj1 obj2 "" = Ok ds
         ∧ compare_objects iter' obj1 obj2 "" = Ok ds'
         ∧ ds ≡ₚ ds').
Proof.
  apply (compare_objects_order iter_descending
           [("a", JInt 1); ("b", JInt 1); ("c", JNone)]
           [("a", JInt 2); ("b", JInt 2); ("d", JNone)] "").
  exact valid_iter_descending.
Defined.

(** When the set happens to be iterated in sorted order, the result is in
    the order of the specification. *)
Example sorted_iteration_run :
  compare_objects sorted
    (JDict [("b", JInt 1); ("a", JInt 1); ("c", JNone)])
    (JDict [("d", JNone); ("b", JInt 2); ("a", JInt 2)]) ""
  = Ok [KeyOnlyInLeft "" ["c"]; KeyOnlyInRight "" ["d"];
        ValueMismatch "a" (JInt 1) (JInt 2); ValueMismatch "b" (JInt 1) (JInt 2)].
Proof. vm_compute. reflexivity. Qed.

(** C2, as stated, fails: with a dict on one side only, all of its keys
    are reported as present on that side only. *)
Lemma one_sided_object_reports_keys :
  compare_objects sorted (JDict [("a", JInt 1)]) (JInt 5) ""
  = Ok [KeyOnlyInLeft "" ["a"]]
  ∧ ¬ (∀ iter obj1 obj2 path,
          valid_iter iter ->
          is_dict obj1 && is_dict obj2 = false ->
          ∃ ds, compare_objects iter obj1 obj2 path = Ok ds
                ∧ ∀ r, r ∈ ds -> is_key_only r = false).
Proof.
  split; [ vm_compute; reflexivity | ].
  intros Hclaim.
  destruct (Hclaim sorted (JDict [("a", JInt 1)]) (JInt 5) ""
              valid_iter_sorted eq_refl) as (ds & Hrun & Hnone).
  vm_compute in Hrun. injection Hrun as <-.
  specialize (Hnone (KeyOnlyInLeft "" ["a"])). simpl in Hnone.
  assert (true = false) as [=]. apply Hnone. left.
Qed.

(** C2, amended. When at least one of the two inputs is not a dict, the
    call does not fail and its loop has no iteration (so nothing is
    compared and nothing recursed into); the result is empty when neither
    input is a dict, and otherwise holds exactly one record when the dict
    has a key: all of its keys, sorted, as only in current (dict on the
    left) or only in new (dict on the right). *)
Theorem compare_objects_non_object iter obj1 obj2 path :
  valid_iter iter ->
  is_dict obj1 && is_dict obj2 = false ->
  iter (keys_of obj1 ∩ keys_of obj2) = []
  ∧ compare_objects iter obj1 obj2 path
    = Ok ((if bool_decide (keys_of obj1 ≠ ∅)
           then [KeyOnlyInLeft path (sorted (keys_of obj1))] else [])
          ++
          (if bool_decide (keys_of obj2 ≠ ∅)
           then [KeyOnlyInRight path (sorted (keys_of obj2))] else []))
  ∧ (is_dict obj1 = false -> is_dict obj2 = false ->
     compare_objects iter obj1 obj2 path = Ok []).
Proof.
  intros Hiter Hnot.
  assert (keys_of obj1 = ∅ ∨ keys_of obj2 = ∅) as Hempty.
  { apply andb_false_iff in Hnot as [ H | H ];
      [ left | right ]; by apply keys_of_not_dict. }
  assert (keys_of obj1 ∩ keys_of obj2 = ∅) as Hinter.
  { destruct Hempty as [ -> | -> ];
      [ apply (left_absorb_L ∅ (∩)) | apply (right_absorb_L ∅ (∩)) ]. }
  assert (keys_of obj1 ∖ keys_of obj2 = keys_of obj1) as Hleft.
  { destruct Hempty as [ H | H ]; rewrite H;
      [ apply empty_difference_L | apply difference_empty_L ]. }
  assert (keys_of obj2 ∖ keys_of obj1 = keys_of obj2) as Hright.
  { destruct Hempty as [ H | H ]; rewrite H;
      [ apply difference_empty_L | apply empty_difference_L ]. }
  assert (compare_objects iter obj1 obj2 path
          = Ok ((if bool_decide (keys_of obj1 ≠ ∅)
                 then [KeyOnlyInLeft path (sorted (keys_of obj1))] else [])
                ++
                (if bool_decide (keys_of obj2 ≠ ∅)
                 then [KeyOnlyInRight path (sorted (keys_of obj2))] else [])))
    as Hrun.
  { rewrite compare_objects_unfold, Hinter, (valid_iter_empty iter Hiter).
    simpl. unfold key_only_records, only_in_current, only_in_new.
    rewrite Hleft, Hright. by rewrite (right_id_L [] (++)). }
  split; [ by rewrite Hinter, (valid_iter_empty iter Hiter) | ].
  split; [ exact Hrun | ].
  intros H1 H2. rewrite Hrun.
  rewrite (keys_of_not_dict _ H1), (keys_of_not_dict _ H2).
  by rewrite bool_decide_eq_false_2 by auto.
Qed.

Lemma compare_objects_non_object_witness :
  iter_descending (keys_of (JList [JInt 1]) ∩ keys_of (JDict [("b", JNone); ("a", JNone)])) = []
  ∧ compare_objects iter_descending (JList [JInt 1])
      (JDict [("b", JNone); ("a", JNone)]) "feeds"
    = Ok ((if bool_decide (keys_of (JList [JInt 1]) ≠ ∅)
           then [KeyOnlyInLeft "feeds" (sorted (keys_of (JList [JInt 1])))]
           else [])
          ++
          (if bool_decide (keys_of (JDict [("b", JNone); ("a", JNone)]) ≠ ∅)
           then [KeyOnlyInRight "feeds"
                   (sorted (keys_of (JDict [("b", JNone); ("a", JNone)])))]
           else []))
  ∧ (is_dict (JList [JInt 1]) = false ->
     is_dict (JDict [("b", JNone); ("a", JNone)]) = false ->
     compare_objects iter_descending (JList [JInt 1])
       (JDict [("b", JNone); ("a", JNone)]) "feeds" = Ok []).
Proof.
  apply compare_objects_non_object;
    [ exact valid_iter_descending | reflexivity ].
Defined.

(** C3, as stated, fails: an [int] and a [float] are both Numbers and
    yet their type names differ; and at an ignored key two values of
    different tags are not compared at all. *)
Lemma int_float_type_mismatch :
  compare_objects sorted (JDict [("n", JInt 5)])
                         (JDict [("n", JFloat five_point_zero)]) ""
  = Ok [TypeMismatch "n" "int" "float"]
  ∧ compare_objects sorted (JDict [("created", JInt 5)])
                           (JDict [("created", JStr "5")]) ""
    = Ok []
  ∧ ¬ (∀ iter fields1 fields2 path key val1 val2 ds,
          valid_iter iter ->
          lookup_field key fields1 = Some val1 ->
          lookup_field key fields2 = Some val2 ->
          loop_body (compare_objects iter) (JDict fields1) (JDict fields2)
            path key = Ok ds ->
          (∃ type1 type2, TypeMismatch (new_path_of path key) type1 type2 ∈ ds)
          ↔ json_tag val1 ≠ json_tag val2).
Proof.
  split; [ vm_compute; reflexivity | ].
  split; [ vm_compute; reflexivity | ].
  intros Hclaim.
  destruct (Hclaim sorted [("n", JInt 5)] [("n", JFloat five_point_zero)]
              "" "n" (JInt 5) (JFloat five_point_zero)
              [TypeMismatch "n" "int" "float"]
              valid_iter_sorted eq_refl eq_refl eq_refl) as [Htag _].
  apply Htag; [ | reflexivity ].
  exists "int", "float". left.
Qed.

(** C3, amended. The type comparison distinguishes the seven type names
    NoneType, bool, int, float, str, list and dict.  For a key that both
    dicts have and that is not an ignored key: when the type names of the
    two values differ, the iteration of that key appends the type mismatch
    at the key's path, with both names, and nothing else; when they are
    equal, [compare_field_types] reports nothing and (the key's path being
    non-empty) no type mismatch at that path is appended.  The names
    differ exactly when the JSON tags differ or the values are an [int]
    and a [float]. *)
Theorem type_mismatch_by_type_name iter fields1 fields2 path key val1 val2 :
  valid_iter iter ->
  key ∉ ignored_keys ->
  lookup_field key fields1 = Some val1 ->
  lookup_field key fields2 = Some val2 ->
  let new_path := new_path_of path key in
  ∃ before ds after,
    loop_body (compare_objects iter) (JDict fields1) (JDict fields2) path key
    = Ok ds
    ∧ compare_objects iter (JDict fields1) (JDict fields2) path
      = Ok (before ++ ds ++ after)
    ∧ (type_name val1 ≠ type_name val2 ->
       ds = [TypeMismatch new_path (type_name val1) (type_name val2)])
    ∧ (type_name val1 = type_name val2 ->
       compare_field_types val1 val2 new_path = None
       ∧ (new_path ≠ "" -> ∀ type1 type2, TypeMismatch new_path type1 type2 ∉ ds))
    ∧ (type_name val1 ≠ type_name val2
       ↔ json_tag val1 ≠ json_tag val2
         ∨ (is_int val1 = true ∧ is_float val2 = true)
         ∨ (is_float val1 = true ∧ is_int val2 = true)).
Proof.
  intros Hiter Hnot Hv1 Hv2 new_path.
  assert (key_in key ignored_keys = false) as Hign.
  { destruct (key_in key ignored_keys) eqn:Hin; [ | reflexivity ].
    by apply elem_of_key_in in Hin. }
  destruct (compare_objects_visit iter (JDict fields1) (JDict fields2) path key
              Hiter (common_key _ _ _ _ _ Hv1 Hv2))
    as (before & ds & after & Hbody & Hrun).
  exists before, ds, after. split; [ exact Hbody | ]. split; [ exact Hrun | ].
  split; [ | split ].
  - intros Hty.
    rewrite (loop_body_common _ _ _ _ _ _ _ Hv1 Hv2), Hign in Hbody.
    rewrite (compare_field_types_Some _ _ _ Hty) in Hbody.
    by injection Hbody as <-.
  - intros Hty. apply (compare_field_types_None val1 val2 new_path) in Hty.
    split; [ exact Hty | ]. intros Hne type1 type2 Hin.
    destruct (loop_body_shape iter fields1 fields2 path key val1 val2
                Hiter Hv1 Hv2 Hign) as (deeper & Hshape & Hdeeper).
    rewrite Hshape in Hbody. injection Hbody as <-.
    fold new_path in Hdeeper, Hin. specialize (Hdeeper Hne).
    apply elem_of_app in Hin as [ Hown | Hdeep ].
    + unfold own_records in Hown. rewrite Hty in Hown.
      destruct val1, val2; simpl in Hown; unfold length_records in Hown;
        no_such_record Hown.
    + by apply (at_or_below_not_here new_path _ _ Hdeeper Hdeep).
  - destruct val1, val2; simpl; split; intros H.
    all: first
      [ by destruct H
      | left; discriminate
      | right; left; split; reflexivity
      | right; right; split; reflexivity
      | discriminate
      | destruct H as [ H | [ [H1 H2] | [H1 H2] ] ];
        first [ by destruct H | discriminate ] ].
Qed.

Lemma type_mismatch_by_type_name_witness :
  let val1 := JInt 5 in
  let val2 := JStr "5" in
  let new_path := new_path_of "" "n" in
  ∃ before ds after,
    loop_body (compare_objects sorted) (JDict [("n", val1)]) (JDict [("n", val2)])
      "" "n" = Ok ds
    ∧ compare_objects sorted (JDict [("n", val1)]) (JDict [("n", val2)]) ""
      = Ok (before ++ ds ++ after)
    ∧ (type_name val1 ≠ type_name val2 ->
       ds = [TypeMismatch new_path (type_name val1) (type_name val2)])
    ∧ (type_name val1 = type_name val2 ->
       compare_field_types val1 val2 new_path = None
       ∧ (new_path ≠ "" -> ∀ type1 type2, TypeMismatch new_path type1 type2 ∉ ds))
    ∧ (type_name val1 ≠ type_name val2
       ↔ json_tag val1 ≠ json_tag val2
         ∨ (is_int val1 = true ∧ is_float val2 = true)
         ∨ (is_float val1 = true ∧ is_int val2 = true)).
Proof.
  apply (type_mismatch_by_type_name sorted
           [("n", JInt 5)] [("n", JStr "5")] "" "n" (JInt 5) (JStr "5")).
  - exact valid_iter_sorted.
  - intros Hin. apply elem_of_key_in in Hin. discriminate.
  - reflexivity.
  - reflexivity.
Defined.

(** Scenario 4 of the specification. *)
Example scenario4 :
  compare_objects sorted (JDict [("n", JInt 5)]) (JDict [("n", JStr "5")]) ""
  = Ok [TypeMismatch "n" "int" "str"].
Proof. vm_compute. reflexivity. Qed.

(** C4, as stated, fails: at an ignored key two lists of different lengths
    are not compared at all. *)
Lemma ignored_key_lists_not_compared :
  compare_objects sorted
    (JDict [("published", JList [JDict []])])
    (JDict [("published", JList [JDict []; JDict []])]) "" = Ok []
  ∧ ¬ (∀ iter fields1 fields2 path key l1 l2,
          valid_iter iter ->
          lookup_field key fields1 = Some (JList l1) ->
          lookup_field key fields2 = Some (JList l2) ->
          length l1 ≠ length l2 ->
          ∃ ds, compare_objects iter (JDict fields1) (JDict fields2) path = Ok ds
                ∧ LengthMismatch (new_path_of path key) (length l1) (length l2)
                  ∈ ds).
Proof.
  split; [ vm_compute; reflexivity | ].
  intros Hclaim.
  destruct (Hclaim sorted
              [("published", JList [JDict []])]
              [("published", JList [JDict []; JDict []])] "" "published"
              [JDict []] [JDict []; JDict []]
              valid_iter_sorted eq_refl eq_refl) as (ds & Hrun & Hin).
  { simpl. lia. }
  vm_compute in Hrun. injection Hrun as <-. by apply elem_of_nil in Hin.
Qed.

(** C4, amended. For a key that both dicts have and that is not an
    ignored key, mapped to two lists of different lengths: the iteration
    of that key appends the length mismatch at the key's path, with both
    lengths, followed by the records of the call on the two first
    elements at the key's path followed by "[0]" when both lists are
    non-empty and both first elements are dicts, and by nothing
    otherwise; no other length mismatch at the key's path is among those
    records; they do not depend on the elements after the first. *)
Theorem list_length_mismatch iter fields1 fields2 path key l1 l2 :
  valid_iter iter ->
  key ∉ ignored_keys ->
  lookup_field key fields1 = Some (JList l1) ->
  lookup_field key fields2 = Some (JList l2) ->
  length l1 ≠ length l2 ->
  let new_path := new_path_of path key in
  let mismatch := LengthMismatch new_path (length l1) (length l2) in
  ∃ before nested after,
    first_element_records iter l1 l2 new_path nested
    ∧ loop_body (compare_objects iter) (JDict fields1) (JDict fields2) path key
      = Ok (mismatch :: nested)
    ∧ compare_objects iter (JDict fields1) (JDict fields2) path
      = Ok (before ++ (mismatch :: nested) ++ after)
    ∧ (∀ n1 n2, LengthMismatch new_path n1 n2 ∉ nested)
    ∧ (∀ x1 t1 x2 t2, l1 = x1 :: t1 -> l2 = x2 :: t2 ->
       first_element_records iter [x1] [x2] new_path nested).
Proof.
  intros Hiter Hnot Hv1 Hv2 Hlen new_path mismatch.
  assert (key_in key ignored_keys = false) as Hign.
  { destruct (key_in key ignored_keys) eqn:Hin; [ | reflexivity ].
    by apply elem_of_key_in in Hin. }
  destruct (compare_objects_visit iter (JDict fields1) (JDict fields2) path key
              Hiter (common_key _ _ _ _ _ Hv1 Hv2))
    as (before & ds & after & Hbody & Hrun).
  destruct (compare_values_list_branch iter key l1 l2 new_path Hiter)
    as (nested & Hfirst & Hbelow & Hlist).
  assert (ds = mismatch :: nested) as ->.
  { rewrite (loop_body_common _ _ _ _ _ _ _ Hv1 Hv2), Hign in Hbody.
    simpl compare_field_types in Hbody. cbv iota in Hbody.
    fold new_path in Hbody. rewrite Hlist in Hbody. injection Hbody as <-.
    unfold length_records.
    by rewrite (proj2 (Nat.eqb_neq _ _) Hlen). }
  exists before, nested, after.
  repeat split; try assumption.
  - intros n1 n2 Hin. rewrite Forall_forall in Hbelow.
    by apply (below_neq new_path _ (Hbelow _ Hin)).
  - intros x1 t1 x2 t2 -> ->. exact Hfirst.
Qed.

Lemma list_length_mismatch_witness :
  let objA := JDict [("id", JInt 1)] in
  let objB := JDict [("id", JStr "1")] in
  let objC := JDict [] in
  let fields1 := [("items", JList [objA])] in
  let fields2 := [("items", JList [objB; objC])] in
  let new_path := new_path_of "" "items" in
  let mismatch := LengthMismatch new_path 1 2 in
  ∃ before nested after,
    first_element_records sorted [objA] [objB; objC] new_path nested
    ∧ loop_body (compare_objects sorted) (JDict fields1) (JDict fields2) "" "items"
      = Ok (mismatch :: nested)
    ∧ compare_objects sorted (JDict fields1) (JDict fields2) ""
      = Ok (before ++ (mismatch :: nested) ++ after)
    ∧ (∀ n1 n2, LengthMismatch new_path n1 n2 ∉ nested)
    ∧ (∀ x1 t1 x2 t2, [objA] = x1 :: t1 -> [objB; objC] = x2 :: t2 ->
       first_element_records sorted [x1] [x2] new_path nested).
Proof.
  apply (list_length_mismatch sorted
           [("items", JList [JDict [("id", JInt 1)]])]
           [("items", JList [JDict [("id", JStr "1")]; JDict []])] "" "items"
           [JDict [("id", JInt 1)]] [JDict [("id", JStr "1")]; JDict []]).
  - exact valid_iter_sorted.
  - intros Hin. apply elem_of_key_in in Hin. discriminate.
  - reflexivity.
  - reflexivity.
  - simpl. lia.
Defined.

(** The array sampling policy of the specification. *)
Example array_sampling_run :
  compare_objects sorted
    (JDict [("items", JList [JDict [("id", JInt 1)]])])
    (JDict [("items", JList [JDict [("id", JStr "1")]; JDict []])]) ""
  = Ok [LengthMismatch "items" 1 2; TypeMismatch "items[0].id" "int" "str"].
Proof. vm_compute. reflexivity. Qed.

(** C5, as stated, fails: a value holding [NaN] differs from itself,
    because [nan != nan] is true. *)
Lemma reflexivity_fails_on_nan :
  compare_objects sorted (JDict [("a", JFloat S754_nan)])
                         (JDict [("a", JFloat S754_nan)]) ""
  = Ok [ValueMismatch "a" (JFloat S754_nan) (JFloat S754_nan)]
  ∧ ¬ (∀ iter X, valid_iter iter -> compare_objects iter X X "" = Ok []).
Proof.
  split; [ vm_compute; reflexivity | ].
  intros Hrefl.
  specialize (Hrefl sorted (JDict [("a", JFloat S754_nan)]) valid_iter_sorted).
  vm_compute in Hrefl. discriminate.
Qed.

(** C5, amended. Reflexivity: for every value [X] that holds no [NaN]
    and every path (the empty one in particular), comparing [X] with
    itself returns the empty list of records. *)
Theorem compare_objects_reflexive iter X path :
  valid_iter iter ->
  nan_free X = true ->
  compare_objects iter X X path = Ok [].
Proof. intros Hiter Hnan. by apply compare_objects_same. Qed.

Lemma compare_objects_reflexive_witness :
  compare_objects sorted
    (JDict [("status", JStr "ok"); ("ratio", JFloat five_point_zero);
            ("items", JList [JDict [("id", JInt 7)]])])
    (JDict [("status", JStr "ok"); ("ratio", JFloat five_point_zero);
            ("items", JList [JDict [("id", JInt 7)]])]) ""
  = Ok [].
Proof.
  apply compare_objects_reflexive; [ exact valid_iter_sorted | reflexivity ].
Defined.

(** C6. For a value-exempt key that both dicts have, the iteration of its
    key appends a block of records to the result such that: when the two
    values have the same JSON tag, no record of the block is a value
    difference at the key's path, whether the values differ or not; when
    the tags differ, the block is exactly the type mismatch at the key's
    path, with the two type names. *)
Theorem value_exempt_key iter fields1 fields2 path key val1 val2 :
  valid_iter iter ->
  key ∈ value_exempt_keys ->
  lookup_field key fields1 = Some val1 ->
  lookup_field key fields2 = Some val2 ->
  let new_path := new_path_of path key in
  ∃ before ds after,
    loop_body (compare_objects iter) (JDict fields1) (JDict fields2) path key
    = Ok ds
    ∧ compare_objects iter (JDict fields1) (JDict fields2) path
      = Ok (before ++ ds ++ after)
    ∧ (json_tag val1 = json_tag val2 ->
       ∀ a b, ValueMismatch new_path a b ∉ ds)
    ∧ (json_tag val1 ≠ json_tag val2 ->
       ds = [TypeMismatch new_path (type_name val1) (type_name val2)]).
Proof.
  intros Hiter Hex Hv1 Hv2 new_path.
  destruct (value_exempt_not_ignored key Hex) as [Hign Hkey].
  destruct (compare_objects_visit iter (JDict fields1) (JDict fields2) path key
              Hiter (common_key _ _ _ _ _ Hv1 Hv2))
    as (before & ds & after & Hbody & Hrun).
  exists before, ds, after. split; [ exact Hbody | ]. split; [ exact Hrun | ].
  destruct (loop_body_shape iter fields1 fields2 path key val1 val2
              Hiter Hv1 Hv2 Hign) as (deeper & Hshape & Hdeeper).
  rewrite Hshape in Hbody. injection Hbody as <-.
  specialize (Hdeeper (new_path_of_nonempty path key Hkey)).
  fold new_path in Hdeeper |- *.
  split.
  - intros _ a b Hin. apply elem_of_app in Hin as [ Hown | Hdeep ].
    + unfold own_records, compare_field_types in Hown.
      rewrite (proj2 (elem_of_key_in key value_exempt_keys) Hex) in Hown.
      rewrite andb_false_r in Hown.
      destruct (negb _); [ no_such_record Hown | ].
      destruct val1, val2; simpl in Hown; unfold length_records in Hown;
        no_such_record Hown.
    + by apply (at_or_below_not_here new_path _ _ Hdeeper Hdeep).
  - intros Htag.
    assert (type_name val1 ≠ type_name val2) as Hty
      by (destruct val1, val2; simpl in *; congruence).
    assert (loop_body (compare_objects iter) (JDict fields1) (JDict fields2)
              path key
            = Ok [TypeMismatch new_path (type_name val1) (type_name val2)])
      as Hdirect.
    { rewrite (loop_body_common _ _ _ _ _ _ _ Hv1 Hv2), Hign.
      by rewrite (compare_field_types_Some _ _ _ Hty). }
    rewrite Hshape in Hdirect. injection Hdirect as Hds. exact Hds.
Qed.

Lemma value_exempt_key_witness :
  let fields1 := [("id", JStr "abc"); ("title", JStr "Hello")] in
  let fields2 := [("id", JInt 7); ("title", JStr "World")] in
  let new_path := new_path_of "" "title" in
  ∃ before ds after,
    loop_body (compare_objects sorted) (JDict fields1) (JDict fields2) "" "title"
    = Ok ds
    ∧ compare_objects sorted (JDict fields1) (JDict fields2) ""
      = Ok (before ++ ds ++ after)
    ∧ (json_tag (JStr "Hello") = json_tag (JStr "World") ->
       ∀ a b, ValueMismatch new_path a b ∉ ds)
    ∧ (json_tag (JStr "Hello") ≠ json_tag (JStr "World") ->
       ds = [TypeMismatch new_path (type_name (JStr "Hello"))
               (type_name (JStr "World"))]).
Proof.
  apply (value_exempt_key sorted
           [("id", JStr "abc"); ("title", JStr "Hello")]
           [("id", JInt 7); ("title", JStr "World")] "" "title");
    [ exact valid_iter_sorted | apply elem_of_key_in | | ]; reflexivity.
Defined.

(** Scenario 3 of the specification, and a type change at an exempt key. *)
Example scenario3 :
  compare_objects sorted
    (JDict [("id", JStr "abc"); ("title", JStr "Hello")])
    (JDict [("id", JStr "abc"); ("title", JStr "World")]) "" = Ok [].
Proof. vm_compute. reflexivity. Qed.

Example exempt_key_type_change :
  compare_objects sorted
    (JDict [("id", JStr "abc"); ("title", JStr "Hello")])
    (JDict [("id", JInt 7); ("title", JStr "World")]) ""
  = Ok [TypeMismatch "id" "str" "int"].
Proof. vm_compute. reflexivity. Qed.

(** ** The call stack *)
















(** Three frames are what the comparison above takes: with two left it
    ends in [RecursionError]. *)
Example frames_run :
  compare_objects_in sorted 3
    (JDict [("items", JList [JDict [("link", JInt 1)]])])
    (JDict [("items", JList [JDict [("link", JInt 2)]])]) "feeds[0]"
  = Ok [ValueMismatch "feeds[0].items[0].link" (JInt 1) (JInt 2)]
  ∧ compare_objects_in sorted 2
      (JDict [("items", JList [JDict [("link", JInt 1)]])])
      (JDict [("items", JList [JDict [("link", JInt 2)]])]) "feeds[0]"
    = Raise RecursionError.
Proof. split; vm_compute; reflexivity. Qed.

(** C8, as stated, fails: a rendering of more than 50 characters is cut
    to its first 50 characters and then extended by three dots, 53
    characters in all. *)
Lemma preview_longer_than_50 :
  (∀ repr_float repr_str,
      describe_fields repr_float repr_str
        (JDict [("title", JStr "The Verge is about technology and how it makes us f")])
      = Ok [("title", "str",
             "The Verge is about technology and how it makes us ...")])
  ∧ ¬ (∀ repr_float repr_str feed triples key value_type preview,
          describe_fields repr_float repr_str feed = Ok triples ->
          (key, value_type, preview) ∈ triples ->
          (String.length preview <= 50)%nat).
Proof.
  split; [ intros; vm_compute; reflexivity | ].
  intros Hclaim.
  specialize (Hclaim (fun _ => "") (fun s => s)
                (JDict [("title", JStr "The Verge is about technology and how it makes us f")])
                [("title", "str",
                  "The Verge is about technology and how it makes us ...")]
                "title" "str"
                "The Verge is about technology and how it makes us ...").
  simpl String.length in Hclaim.
  assert (53 <= 50)%nat by (apply Hclaim; [ vm_compute; reflexivity | left ]).
  lia.
Qed.

(** C8, amended. The loop over the fields of a dict does not fail and
    reports its keys in sorted order; for every reported field the
    preview is at most 53 characters: it is the full rendering [str] of
    the value when that rendering has at most 50 characters, and
    otherwise the first 50 characters of the rendering followed by three
    dots. *)
Theorem describe_fields_preview repr_float repr_str fields :
  ∃ triples,
    describe_fields repr_float repr_str (JDict fields) = Ok triples
    ∧ map (fun t => fst (fst t)) triples = sorted_list (map fst fields)
    ∧ ∀ key value_type preview,
        (key, value_type, preview) ∈ triples ->
        ∃ value,
          lookup_field key fields = Some value
          ∧ value_type = type_name value
          ∧ (String.length preview <= 53)%nat
          ∧ ((String.length (py_str repr_float repr_str value) <= 50)%nat ->
             preview = py_str repr_float repr_str value)
          ∧ ((50 < String.length (py_str repr_float repr_str value))%nat ->
             preview = substring 0 50 (py_str repr_float repr_str value) +:+ "..."
             ∧ String.length preview = 53).
Proof.
  eexists. split; [ apply describe_fields_dict | ].
  split.
  { rewrite map_map. simpl. apply map_id. }
  intros key value_type preview Hin.
  apply list_elem_of_fmap in Hin as (key' & [= -> -> ->] & Hkey).
  unfold sorted_list in Hkey. rewrite merge_sort_Permutation in Hkey.
  apply elem_of_field_keys in Hkey as [value Hvalue].
  exists value. rewrite Hvalue. simpl.
  split; [ reflexivity | ]. split; [ reflexivity | ].
  split; [ | split ].
  - destruct (Nat.le_gt_cases
                (String.length (py_str repr_float repr_str value)) 50) as [ H | H ].
    + rewrite (sample_short _ _ _ H). lia.
    + destruct (sample_long _ _ _ H) as [_ ->]. lia.
  - apply sample_short.
  - apply sample_long.
Qed.

(** The Describe scenario of the specification. *)
Example describe_scenario :
  describe_fields (fun _ => "") (fun s => "'" +:+ s +:+ "'")
    (JDict [("a", JInt 1); ("b", JList [JInt 1; JInt 2; JInt 3]);
            ("author", JDict [("name", JStr "Bob")])])
  = Ok [("a", "int", "1"); ("author", "dict", "{'name': 'Bob'}");
        ("b", "list", "[1, 2, 3]")].
Proof. vm_compute. reflexivity. Qed.

(** C9. A key of the ignored list that only one of the two dicts has is
    still listed in the record of the keys only in current (first record
    of the result) or only in new; the list only silences the iteration of
    the loop for a key that both dicts have. *)
Theorem ignored_key_one_sided iter fields1 fields2 path key :
  valid_iter iter ->
  key ∈ ignored_keys ->
  let obj1 := JDict fields1 in
  let obj2 := JDict fields2 in
  (key ∈ keys_of obj1 -> key ∉ keys_of obj2 ->
   ∃ ks rest,
     compare_objects iter obj1 obj2 path = Ok (KeyOnlyInLeft path ks :: rest)
     ∧ key ∈ ks)
  ∧ (key ∈ keys_of obj2 -> key ∉ keys_of obj1 ->
     ∃ before ks rest,
       compare_objects iter obj1 obj2 path
       = Ok (before ++ KeyOnlyInRight path ks :: rest)
       ∧ key ∈ ks
       ∧ (before = [] ∨ ∃ ks', before = [KeyOnlyInLeft path ks']))
  ∧ (key ∈ keys_of obj1 ∩ keys_of obj2 ->
     loop_body (compare_objects iter) obj1 obj2 path key = Ok []).
Proof.
  intros Hiter Hign obj1 obj2.
  destruct (compare_objects_decompose iter obj1 obj2 path Hiter)
    as (per_key & _ & Hrun).
  unfold key_only_records, only_in_current, only_in_new in Hrun.
  repeat split.
  - intros H1 H2.
    assert (key ∈ keys_of obj1 ∖ keys_of obj2) as Hin
      by (apply elem_of_difference; by split).
    rewrite bool_decide_eq_true_2 in Hrun
      by (intros Hempty; rewrite Hempty in Hin; by apply not_elem_of_empty in Hin).
    eexists _, _. split; [ exact Hrun | ]. by apply elem_of_sorted.
  - intros H2 H1.
    assert (key ∈ keys_of obj2 ∖ keys_of obj1) as Hin
      by (apply elem_of_difference; by split).
    rewrite (bool_decide_eq_true_2 (keys_of obj2 ∖ keys_of obj1 ≠ ∅)) in Hrun
      by (intros Hempty; rewrite Hempty in Hin; by apply not_elem_of_empty in Hin).
    rewrite <- (assoc_L (++)) in Hrun.
    eexists _, _, _. split; [ exact Hrun | ].
    split; [ by apply elem_of_sorted | ].
    case_bool_decide; [ right; eauto | by left ].
  - intros Hboth. apply elem_of_intersection in Hboth as [H1 H2].
    apply elem_of_keys_of_dict in H1 as [val1 Hv1].
    apply elem_of_keys_of_dict in H2 as [val2 Hv2].
    rewrite (loop_body_common _ _ _ _ _ _ _ Hv1 Hv2).
    by rewrite (proj2 (elem_of_key_in key ignored_keys) Hign).
Qed.

Lemma ignored_key_one_sided_witness :
  let obj1 := JDict [("published", JStr "2024"); ("title", JStr "t")] in
  let obj2 := JDict [("title", JStr "t"); ("created", JInt 1)] in
  ("published" ∈ keys_of obj1 -> "published" ∉ keys_of obj2 ->
   ∃ ks rest,
     compare_objects sorted obj1 obj2 "" = Ok (KeyOnlyInLeft "" ks :: rest)
     ∧ "published" ∈ ks)
  ∧ ("published" ∈ keys_of obj2 -> "published" ∉ keys_of obj1 ->
     ∃ before ks rest,
       compare_objects sorted obj1 obj2 ""
       = Ok (before ++ KeyOnlyInRight "" ks :: rest)
       ∧ "published" ∈ ks
       ∧ (before = [] ∨ ∃ ks', before = [KeyOnlyInLeft "" ks']))
  ∧ ("published" ∈ keys_of obj1 ∩ keys_of obj2 ->
     loop_body (compare_objects sorted) obj1 obj2 "" "published" = Ok []).
Proof.
  apply (ignored_key_one_sided sorted
           [("published", JStr "2024"); ("title", JStr "t")]
           [("title", JStr "t"); ("created", JInt 1)] "" "published");
    [ exact valid_iter_sorted | ].
  apply elem_of_key_in. reflexivity.
Defined.

(** A run where both one-sided keys are ignored keys. *)
Example ignored_keys_still_listed :
  compare_objects sorted
    (JDict [("published", JStr "2024"); ("title", JStr "t")])
    (JDict [("title", JStr "t"); ("created", JInt 1)]) ""
  = Ok [KeyOnlyInLeft "" ["published"]; KeyOnlyInRight "" ["created"]].
Proof. vm_compute. reflexivity. Qed.



(** Differences beneath a value-exempt key are reported. *)
Example exempt_key_nested_run :
  compare_objects sorted
    (JDict [("content", JDict [("x", JInt 1); ("y", JInt 2)]);
            ("title", JList [JDict [("n", JInt 1)]])])
    (JDict [("content", JDict [("x", JInt 2)]);
            ("title", JList [JDict [("n", JStr "1")]; JNone])]) ""
  = Ok [KeyOnlyInLeft "content" ["y"];
        ValueMismatch "content.x" (JInt 1) (JInt 2);
        LengthMismatch "title" 1 2;
        TypeMismatch "title[0].n" "int" "str"].
Proof. vm_compute. reflexivity. Qed.

(** * Further properties of [compare_objects] *)

(** ** Exchanging the two inputs *)

Lemma SFeqb_sym f1 f2 : SFeqb f1 f2 = SFeqb f2 f1.
Proof.
  unfold SFeqb, SFcompare.
  destruct f1 as [ [] | [] | | [] m1 e1 ], f2 as [ [] | [] | | [] m2 e2 ];
    try reflexivity.
  all: rewrite (Z.compare_antisym e1 e2);
    destruct (e1 ?= e2)%Z; simpl; try reflexivity;
    change (Pos.compare_cont Eq m1 m2) with (Pos.compare m1 m2);
    change (Pos.compare_cont Eq m2 m1) with (Pos.compare m2 m1);
    rewrite (Pos.compare_antisym m1 m2);
    destruct (m1 ?= m2)%positive; reflexivity.
Qed.

Lemma value_ne_sym val1 val2 :
  type_name val1 = type_name val2 -> value_ne val1 val2 = value_ne val2 val1.
Proof.
  destruct val1, val2; simpl; try discriminate; try reflexivity; intros _.
  - by destruct b, b0.
  - by rewrite Z.eqb_sym.
  - by rewrite SFeqb_sym.
  - by rewrite String.eqb_sym.
Qed.

Lemma key_only_records_swap obj1 obj2 path :
  key_only_records obj2 obj1 path
  ≡ₚ map mirror (key_only_records obj1 obj2 path).
Proof.
  unfold key_only_records, only_in_current, only_in_new.
  rewrite map_app, (Permutation_app_comm (map mirror _)).
  apply Permutation_app; case_bool_decide; reflexivity.
Qed.

Lemma length_records_swap l1 l2 path :
  length_records l2 l1 path = map mirror (length_records l1 l2 path).
Proof.
  unfold length_records. rewrite (Nat.eqb_sym (length l2)).
  by destruct (negb _).
Qed.

Lemma flat_map_mirror {A} (f : A -> list DiffRecord) l :
  map mirror (flat_map f l) = flat_map (fun x => map mirror (f x)) l.
Proof.
  induction l as [ | x l IH ]; [ reflexivity | ].
  simpl. by rewrite map_app, IH.
Qed.

Lemma compare_objects_swap_perm iter :
  valid_iter iter ->
  ∀ obj1 obj2 path ds ds',
    compare_objects iter obj1 obj2 path = Ok ds ->
    compare_objects iter obj2 obj1 path = Ok ds' ->
    ds' ≡ₚ map mirror ds.
Proof.
  intros Hiter obj1.
  induction obj1 as [obj1 IH] using compare_descent_ind.
  intros obj2 path ds ds' Hrun Hrun'.
  destruct (compare_objects_decompose iter obj1 obj2 path Hiter)
    as (per_key & Hall & Heq).
  destruct (compare_objects_decompose iter obj2 obj1 path Hiter)
    as (per_key' & Hall' & Heq').
  rewrite Heq in Hrun. injection Hrun as <-.
  rewrite Heq' in Hrun'. injection Hrun' as <-.
  rewrite map_app. apply Permutation_app; [ apply key_only_records_swap | ].
  rewrite (comm_L (∩) (keys_of obj2) (keys_of obj1)) in Hall'.
  rewrite (concat_per_key _ _ _ Hall), (concat_per_key _ _ _ Hall').
  rewrite flat_map_mirror.
  apply flat_map_pointwise_perm. intros key Hkey.
  apply (valid_iter_elem_of iter _ key Hiter) in Hkey.
  apply elem_of_intersection in Hkey as [Hk1 Hk2].
  apply elem_of_keys_of in Hk1 as (fields1 & val1 & -> & Hv1).
  apply elem_of_keys_of in Hk2 as (fields2 & val2 & -> & Hv2).
  rewrite (loop_body_common _ _ _ _ _ _ _ Hv1 Hv2).
  rewrite (loop_body_common _ _ _ _ _ _ _ Hv2 Hv1).
  destruct (key_in key ignored_keys); [ reflexivity | ].
  unfold compare_field_types.
  rewrite (String.eqb_sym (type_name val2)).
  destruct (String.eqb_spec (type_name val1) (type_name val2)) as [ Hty | Hty ];
    simpl negb; cbv iota; [ | reflexivity ].
  destruct (IH fields1 key val1 eq_refl (lookup_field_elem_of _ _ _ Hv1))
    as [IHval IHhead].
  destruct val1 as [ | | | | | l1 | d1 ], val2 as [ | | | | | l2 | d2 ];
    simpl in Hty; try discriminate.
  1-5: (match goal with
        | |- context [compare_values _ _ ?a ?b _] =>
            destruct (value_ne_reached (compare_objects iter) key a b
                        (new_path_of path key) eq_refl (or_introl eq_refl))
              as (_ & _ & E1);
            destruct (value_ne_reached (compare_objects iter) key b a
                        (new_path_of path key) eq_refl (or_introl eq_refl))
              as (_ & _ & E2);
            rewrite ?E1, ?E2; try rewrite (value_ne_sym b a eq_refl)
        end;
        match goal with
        | |- context [if ?c then _ else _] => destruct c
        | _ => idtac
        end; reflexivity).
  - rewrite !compare_values_lists, length_records_swap.
    destruct l1 as [ | x1 l1 ], l2 as [ | x2 l2 ]; try reflexivity.
    rewrite (andb_comm (is_dict x2)).
    destruct (is_dict x1 && is_dict x2); [ | reflexivity ].
    destruct (compare_objects_Ok iter Hiter x1 x2
                (new_path_of path key +:+ "[0]")) as [d Hd].
    destruct (compare_objects_Ok iter Hiter x2 x1
                (new_path_of path key +:+ "[0]")) as [d' Hd'].
    rewrite Hd, Hd'. simpl. rewrite map_app.
    apply Permutation_app_head. exact (IHhead x1 l1 eq_refl _ _ _ _ Hd Hd').
  - rewrite !compare_values_dicts.
    destruct (compare_objects_Ok iter Hiter (JDict d1) (JDict d2)
                (new_path_of path key)) as [d Hd].
    destruct (compare_objects_Ok iter Hiter (JDict d2) (JDict d1)
                (new_path_of path key)) as [d' Hd'].
    rewrite Hd, Hd'. exact (IHval _ _ _ _ Hd Hd').
Qed.

(** ** What the records say *)

Lemma value_ne_py_eq val1 val2 :
  type_name val1 = type_name val2 -> is_scalar val1 = true ->
  value_ne val1 val2 = negb (py_eq val1 val2).
Proof.
  destruct val1, val2; simpl; try discriminate; reflexivity.
Qed.

Lemma sorted_nonempty s : s ≠ ∅ -> sorted s ≠ [].
Proof.
  intros Hne Hnil. apply Hne. apply leibniz_equiv, elements_empty_inv.
  apply Permutation_nil_r. by rewrite <- sorted_Permutation, Hnil.
Qed.

Lemma sorted_NoDup s : NoDup (sorted s).
Proof. rewrite sorted_Permutation. apply NoDup_elements. Qed.

Lemma key_only_records_ok obj1 obj2 path :
  Forall record_ok (key_only_records obj1 obj2 path).
Proof.
  unfold key_only_records. apply Forall_app.
  split; case_bool_decide; constructor; try constructor; simpl;
    auto using sorted_nonempty, sorted_Sorted, sorted_NoDup.
Qed.

Lemma length_records_ok l1 l2 path :
  Forall record_ok (length_records l1 l2 path).
Proof.
  unfold length_records.
  destruct (Nat.eqb_spec (length l1) (length l2)); simpl;
    constructor; [ assumption | constructor ].
Qed.

Lemma compare_objects_records_ok iter :
  valid_iter iter ->
  ∀ obj1 obj2 path ds,
    compare_objects iter obj1 obj2 path = Ok ds -> Forall record_ok ds.
Proof.
  intros Hiter obj1.
  induction obj1 as [obj1 IH] using compare_descent_ind.
  intros obj2 path ds Hrun.
  destruct (compare_objects_decompose iter obj1 obj2 path Hiter)
    as (per_key & Hall & Heq).
  rewrite Heq in Hrun. injection Hrun as <-. clear Heq.
  apply Forall_app. split; [ apply key_only_records_ok | ].
  apply Forall_concat.
  assert (Forall (fun key => key ∈ keys_of obj1 ∩ keys_of obj2)
                 (iter (keys_of obj1 ∩ keys_of obj2))) as Hkeys.
  { apply Forall_forall. intros key Hkey.
    by apply (valid_iter_elem_of iter _ key Hiter). }
  induction Hall as [ | key dsk keys dss Hbody Hall IHall ]; [ constructor | ].
  apply Forall_cons_1 in Hkeys as [Hkey Hkeys].
  constructor; [ | exact (IHall Hkeys) ].
  clear IHall Hall Hkeys.
  apply elem_of_intersection in Hkey as [Hk1 Hk2].
  apply elem_of_keys_of in Hk1 as (fields1 & val1 & -> & Hv1).
  apply elem_of_keys_of in Hk2 as (fields2 & val2 & -> & Hv2).
  rewrite (loop_body_common _ _ _ _ _ _ _ Hv1 Hv2) in Hbody.
  destruct (key_in key ignored_keys); [ injection Hbody as <-; constructor | ].
  destruct (String.eq_dec (type_name val1) (type_name val2)) as [ Hty | Hty ].
  2: { rewrite (compare_field_types_Some _ _ _ Hty) in Hbody.
       injection Hbody as <-. constructor; [ | constructor ].
       simpl. split; [ exact Hty | eauto ]. }
  rewrite (proj2 (compare_field_types_None _ _ _) Hty) in Hbody.
  destruct (IH fields1 key val1 eq_refl (lookup_field_elem_of _ _ _ Hv1))
    as [IHval IHhead].
  destruct val1 as [ | | | | | l1 | d1 ], val2 as [ | | | | | l2 | d2 ];
    simpl in Hty; try discriminate.
  1-5: (match type of Hbody with
        | context [compare_values _ _ ?a ?b _] =>
            destruct (value_ne_reached (compare_objects iter) key a b
                        (new_path_of path key) eq_refl (or_introl eq_refl))
              as (Ha & Hb & E);
            rewrite E in Hbody;
            pose proof (value_ne_py_eq a b eq_refl Ha) as Hne
        end;
        destruct (value_ne _ _) eqn:Hval;
        destruct (negb (key_in key value_exempt_keys));
        simpl in Hbody; injection Hbody as <-; constructor; try constructor;
        simpl; repeat split; by apply negb_true_iff).
  - rewrite compare_values_lists in Hbody.
    pose proof (length_records_ok l1 l2 (new_path_of path key)) as Hlen.
    destruct l1 as [ | x1 l1 ], l2 as [ | x2 l2 ];
      try (injection Hbody as <-; exact Hlen).
    destruct (is_dict x1 && is_dict x2);
      [ | injection Hbody as <-; exact Hlen ].
    destruct (compare_objects iter x1 x2 _) as [ d | e ] eqn:Hrec;
      [ | discriminate ].
    simpl in Hbody. injection Hbody as <-.
    apply Forall_app. split; [ exact Hlen | ].
    exact (IHhead x1 l1 eq_refl _ _ _ Hrec).
  - rewrite compare_values_dicts in Hbody. exact (IHval _ _ _ Hbody).
Qed.

(** X1. Exchanging the two inputs exchanges the roles in every record and
    reports nothing else: the records of [compare_objects(obj2, obj1)]
    are, up to their order, those of [compare_objects(obj1, obj2)] with
    "only in current" and "only in new" exchanged and with the two type
    names, the two lengths and the two values of each record exchanged;
    this holds whatever the two iteration orders are. *)
Theorem compare_objects_swap iter iter' obj1 obj2 path :
  valid_iter iter ->
  valid_iter iter' ->
  ∃ ds ds',
    compare_objects iter obj1 obj2 path = Ok ds
    ∧ compare_objects iter' obj2 obj1 path = Ok ds'
    ∧ ds' ≡ₚ map mirror ds.
Proof.
  intros Hiter Hiter'.
  destruct (compare_objects_Ok iter Hiter obj1 obj2 path) as [ds Hds].
  destruct (compare_objects_Ok iter Hiter obj2 obj1 path) as [ds0 Hds0].
  destruct (compare_objects_Ok iter' Hiter' obj2 obj1 path) as [ds' Hds'].
  exists ds, ds'. split; [ exact Hds | ]. split; [ exact Hds' | ].
  rewrite <- (compare_objects_swap_perm iter Hiter _ _ _ _ _ Hds Hds0).
  exact (compare_objects_any_order iter' iter Hiter' Hiter _ _ _ _ _ Hds' Hds0).
Qed.

Lemma compare_objects_swap_witness :
  ∃ ds ds',
    compare_objects sorted
      (JDict [("feedTitle", JStr "X"); ("lang", JStr "en"); ("n", JInt 5)])
      (JDict [("feedTitle", JStr "Y"); ("n", JStr "5")]) "" = Ok ds
    ∧ compare_objects iter_descending
        (JDict [("feedTitle", JStr "Y"); ("n", JStr "5")])
        (JDict [("feedTitle", JStr "X"); ("lang", JStr "en"); ("n", JInt 5)]) ""
      = Ok ds'
    ∧ ds' ≡ₚ map mirror ds.
Proof.
  apply compare_objects_swap;
    [ exact valid_iter_sorted | exact valid_iter_descending ].
Defined.

(** X2. Every record states a fact: a record of one-sided keys lists at
    least one key, sorted and without repetition; a type mismatch names
    two different type names; a length mismatch gives two different
    lengths; a value difference gives two values of the same type,
    neither a list nor a dict, that are not equal.  In particular no value
    difference is ever reported between two lists, two dicts or two
    values of different types. *)
Theorem compare_objects_records_meaningful iter obj1 obj2 path :
  valid_iter iter ->
  ∃ ds, compare_objects iter obj1 obj2 path = Ok ds ∧ Forall record_ok ds.
Proof.
  intros Hiter.
  destruct (compare_objects_Ok iter Hiter obj1 obj2 path) as [ds Hds].
  exists ds. split; [ exact Hds | ].
  exact (compare_objects_records_ok iter Hiter _ _ _ _ Hds).
Qed.

Lemma compare_objects_records_meaningful_witness :
  ∃ ds,
    compare_objects sorted
      (JDict [("items", JList [JDict [("id", JInt 1)]]); ("ttl", JInt 60)])
      (JDict [("items", JList [JDict [("id", JStr "1")]; JDict []]);
              ("ttl", JFloat five_point_zero); ("lang", JNone)]) "feeds[0]"
    = Ok ds
    ∧ Forall record_ok ds.
Proof. apply compare_objects_records_meaningful. exact valid_iter_sorted. Defined.

(** With the common keys visited in the same order on both sides, two
    pairs of dicts that agree off the ignored keys give the same list. *)
Lemma compare_objects_agree iter fields1 fields1' fields2 fields2' path :
  agree_off_ignored fields1 fields1' ->
  agree_off_ignored fields2 fields2' ->
  compare_objects iter (JDict fields1) (JDict fields2) path
  = compare_objects iter (JDict fields1') (JDict fields2') path.
Proof.
  intros Hagree1 Hagree2.
  assert (∀ f f', agree_off_ignored f f' ->
                  keys_of (JDict f) = keys_of (JDict f')) as Hkeys.
  { intros f f' Hagree. apply set_eq. intros key.
    rewrite !elem_of_keys_of_dict. apply (Hagree key). }
  rewrite !compare_objects_unfold.
  unfold key_only_records, only_in_current, only_in_new.
  rewrite (Hkeys _ _ Hagree1), (Hkeys _ _ Hagree2).
  rewrite (for_each_ext
             (loop_body (compare_objects iter) (JDict fields1) (JDict fields2) path)
             (loop_body (compare_objects iter) (JDict fields1') (JDict fields2') path));
    [ reflexivity | ].
  intros key _. unfold loop_body. rewrite !getitem_lookup.
  destruct (Hagree1 key) as [Hsome1 Hsame1], (Hagree2 key) as [Hsome2 Hsame2].
  destruct (key_in key ignored_keys) eqn:Hign.
  - assert (∀ a b : option JsonValue,
               (is_Some a ↔ is_Some b) ->
               (∃ x y, a = Some x ∧ b = Some y) ∨ (a = None ∧ b = None))
      as Hcases.
    { intros [ x | ] [ y | ] [H1 H2]; eauto.
      - destruct (H1 (mk_is_Some _ _ eq_refl)) as [? [=]].
      - destruct (H2 (mk_is_Some _ _ eq_refl)) as [? [=]]. }
    destruct (Hcases _ _ Hsome1) as [ (v1 & v1' & -> & ->) | [-> ->] ];
      [ | reflexivity ].
    rewrite !getitem_lookup.
    destruct (Hcases _ _ Hsome2) as [ (v2 & v2' & -> & ->) | [-> ->] ];
      reflexivity.
  - assert (key ∉ ignored_keys) as Hnot.
    { intros Hin. apply elem_of_key_in in Hin. congruence. }
    rewrite (Hsame1 Hnot).
    destruct (lookup_field key fields1'); [ | reflexivity ].
    rewrite !getitem_lookup, (Hsame2 Hnot). reflexivity.
Qed.

Lemma agree_off_ignored_refl fields : agree_off_ignored fields fields.
Proof. intros key. split; [ reflexivity | reflexivity ]. Qed.

Lemma agree_off_ignored_published :
  agree_off_ignored
    [("published", JStr "2024-05-01"); ("title", JStr "t")]
    [("title", JStr "t"); ("published", JList [JInt 0])].
Proof.
  intros key. cbn [lookup_field].
  destruct (String.eqb_spec "published" key) as [ <- | _ ].
  - split; [ split; eauto | ].
    intros Hnot. exfalso. apply Hnot. by apply elem_of_key_in.
  - destruct (String.eqb "title" key); split; reflexivity.
Qed.

(** X3. The values at ignored keys, and the order of the items of the
    two dicts, have no influence on what is reported: two dicts that
    have the same keys and the same value at every key that is not an
    ignored key give the same records against any other value, on either
    side.  The records are the same up to their order, which follows
    the order in which each run visits the common keys. *)
Theorem ignored_values_irrelevant
    iter iter' fields1 fields1' fields2 fields2' path :
  valid_iter iter ->
  valid_iter iter' ->
  agree_off_ignored fields1 fields1' ->
  agree_off_ignored fields2 fields2' ->
  ∃ ds ds',
    compare_objects iter (JDict fields1) (JDict fields2) path = Ok ds
    ∧ compare_objects iter' (JDict fields1') (JDict fields2') path = Ok ds'
    ∧ ds ≡ₚ ds'.
Proof.
  intros Hiter Hiter' Hagree1 Hagree2.
  destruct (compare_objects_Ok iter Hiter (JDict fields1) (JDict fields2) path)
    as [ds Hds].
  destruct (compare_objects_Ok iter' Hiter' (JDict fields1') (JDict fields2') path)
    as [ds' Hds'].
  exists ds, ds'. split; [ exact Hds | ]. split; [ exact Hds' | ].
  rewrite (compare_objects_agree iter _ _ _ _ path Hagree1 Hagree2) in Hds.
  exact (compare_objects_any_order iter iter' Hiter Hiter' _ _ _ _ _ Hds Hds').
Qed.

Lemma ignored_values_irrelevant_witness :
  ∃ ds ds',
    compare_objects sorted
      (JDict [("published", JStr "2024-05-01"); ("title", JStr "t")])
      (JDict [("published", JNone); ("title", JInt 1)]) "" = Ok ds
    ∧ compare_objects iter_descending
        (JDict [("title", JStr "t"); ("published", JList [JInt 0])])
        (JDict [("published", JNone); ("title", JInt 1)]) "" = Ok ds'
    ∧ ds ≡ₚ ds'.
Proof.
  apply ignored_values_irrelevant;
    [ exact valid_iter_sorted | exact valid_iter_descending
    | exact agree_off_ignored_published | apply agree_off_ignored_refl ].
Defined.

(** X4. Every record is located at or under the path given to the call:
    its path is that path followed by a suffix, and when the given path
    is not empty only the two records of one-sided keys carry exactly
    that path, every other record a strictly longer one.  So the records
    of the script's call with "feeds[0]" all start with "feeds[0]". *)
Theorem record_paths_under_call_path iter obj1 obj2 path :
  valid_iter iter ->
  ∃ ds,
    compare_objects iter obj1 obj2 path = Ok ds
    ∧ ∀ r, r ∈ ds ->
        (∃ suffix, diff_path r = path +:+ suffix)
        ∧ (path ≠ "" -> is_key_only r = false ->
           (String.length path < String.length (diff_path r))%nat).
Proof.
  intros Hiter.
  destruct (compare_objects_Ok iter Hiter obj1 obj2 path) as [ds Hds].
  exists ds. split; [ exact Hds | ]. intros r Hr.
  destruct (String.eqb_spec path "") as [ -> | Hne ].
  { split; [ by exists (diff_path r) | by intros [] ]. }
  pose proof (compare_objects_paths iter Hiter _ _ _ _ Hne Hds) as Hall.
  rewrite Forall_forall in Hall.
  destruct (Hall r Hr) as [ [Hk Hpath] | (suffix & Hsuffix & Hpath) ].
  - split; [ exists ""; by rewrite string_app_nil_r | ].
    intros _ Hkind. congruence.
  - split; [ by exists suffix | ]. intros _ _.
    rewrite Hpath, string_app_length.
    destruct suffix; [ contradiction | simpl; lia ].
Qed.

Lemma record_paths_under_call_path_witness :
  ∃ ds,
    compare_objects sorted
      (JDict [("items", JList [JDict [("id", JInt 1)]]); ("ttl", JInt 60)])
      (JDict [("items", JList [JDict [("id", JStr "1")]; JDict []])]) "feeds[0]"
    = Ok ds
    ∧ ∀ r, r ∈ ds ->
        (∃ suffix, diff_path r = "feeds[0]" +:+ suffix)
        ∧ ("feeds[0]" ≠ "" -> is_key_only r = false ->
           (String.length "feeds[0]" < String.length (diff_path r))%nat).
Proof. apply record_paths_under_call_path. exact valid_iter_sorted. Defined.

(** * The salvage of a truncated response *)

Lemma starts_with_spec sub l :
  starts_with sub l = true ↔ ∃ after, l = sub ++ after.
Proof.
  revert l. induction sub as [ | b sub IH ]; intros l; simpl.
  - split; [ eauto | reflexivity ].
  - destruct l as [ | c l ].
    + split; [ discriminate | intros [after [=]] ].
    + rewrite andb_true_iff, IH. split.
      * intros [Hb [after ->]]. apply byte_dec_bl in Hb as ->. eauto.
      * intros [after [= -> ->]]. split; [ by apply byte_dec_lb | eauto ].
Qed.

Lemma occurs_at_starts_with sub l k :
  occurs_at sub l k ↔ (k <= length l)%nat ∧ starts_with sub (drop k l) = true.
Proof. unfold occurs_at. by rewrite starts_with_spec. Qed.

Lemma occurs_at_S sub c l k :
  occurs_at sub (c :: l) (S k) ↔ occurs_at sub l k.
Proof. unfold occurs_at. simpl. by rewrite <- Nat.succ_le_mono. Qed.

Lemma find_at_Some sub l k :
  find_at sub l = Some k ↔ first_occurrence sub l k.
Proof.
  revert k. induction l as [ | c l IH ]; intros k; simpl.
  - destruct (starts_with sub []) eqn:Hs.
    + split.
      * intros [= <-]. split; [ | intros ? ?; lia ].
        apply occurs_at_starts_with. by split.
      * intros [[Hk _] _]. simpl in Hk. f_equal. lia.
    + split; [ discriminate | ].
      intros [[Hk Hocc] _]. simpl in Hk. assert (k = 0)%nat as -> by lia.
      apply starts_with_spec in Hocc. simpl in Hocc. congruence.
  - destruct (starts_with sub (c :: l)) eqn:Hs.
    + split.
      * intros [= <-]. split; [ | intros ? ?; lia ].
        apply occurs_at_starts_with. split; [ simpl; lia | exact Hs ].
      * intros [_ Hfirst]. destruct k as [ | k ]; [ reflexivity | ].
        exfalso. apply (Hfirst 0%nat); [ lia | ].
        apply occurs_at_starts_with. split; [ simpl; lia | exact Hs ].
    + destruct (find_at sub l) as [ k0 | ]; simpl.
      * split.
        -- intros [= <-]. destruct (proj1 (IH k0) eq_refl) as [Hocc Hfirst].
           split.
           ++ by apply occurs_at_S.
           ++ intros [ | k' ] Hlt.
              ** intros Hocc0. apply occurs_at_starts_with in Hocc0 as [_ H0].
                 simpl in H0. congruence.
              ** rewrite occurs_at_S. apply Hfirst. lia.
        -- intros [Hocc Hfirst]. destruct k as [ | k ].
           ++ apply occurs_at_starts_with in Hocc as [_ H0].
              simpl in H0. congruence.
           ++ assert (Some k0 = Some k) as [= ->]; [ | reflexivity ].
              apply IH. split; [ by apply occurs_at_S in Hocc | ].
              intros k' Hlt. rewrite <- occurs_at_S. apply Hfirst. lia.
      * split; [ discriminate | ].
        intros [Hocc Hfirst]. destruct k as [ | k ].
        -- apply occurs_at_starts_with in Hocc as [_ H0].
           simpl in H0. congruence.
        -- assert (None = Some k) as [=].
           apply IH. split; [ by apply occurs_at_S in Hocc | ].
           intros k' Hlt. rewrite <- occurs_at_S. apply Hfirst. lia.
Qed.

Lemma first_occurrence_unique sub l k k' :
  first_occurrence sub l k -> first_occurrence sub l k' -> k = k'.
Proof.
  intros H H'. apply find_at_Some in H, H'. congruence.
Qed.

Lemma find_at_None sub l :
  find_at sub l = None ↔ ∀ k, ¬ occurs_at sub l k.
Proof.
  split.
  - intros Hnone k. induction k as [k IH] using lt_wf_ind. intros Hocc.
    assert (find_at sub l = Some k) as Hk; [ | congruence ].
    apply find_at_Some. split; [ exact Hocc | exact IH ].
  - intros Hnever. destruct (find_at sub l) as [ k | ] eqn:Hfind; [ | reflexivity ].
    apply find_at_Some in Hfind as [Hocc _]. by destruct (Hnever k).
Qed.

Lemma bytes_find_zero content sub :
  bytes_find content sub 0
  = match find_at sub content with
    | Some k => Z.of_nat k
    | None => (-1)%Z
    end.
Proof.
  unfold bytes_find. simpl.
  destruct (Z.ltb_spec (Z.of_nat (length content)) 0); [ lia | ].
  rewrite drop_0. reflexivity.
Qed.

Lemma bytes_find_from content sub (i : nat) :
  (i <= length content)%nat ->
  bytes_find content sub (Z.of_nat i)
  = match find_at sub (drop i content) with
    | Some k => Z.of_nat (i + k)
    | None => (-1)%Z
    end.
Proof.
  intros Hi. unfold bytes_find.
  destruct (Z.ltb_spec (Z.of_nat i) 0); [ lia | ].
  destruct (Z.ltb_spec (Z.of_nat (length content)) (Z.of_nat i)); [ lia | ].
  rewrite Nat2Z.id. destruct (find_at sub (drop i content)); [ | reflexivity ].
  by rewrite Nat2Z.inj_add.
Qed.

Lemma occurs_at_length sub l k :
  occurs_at sub l k -> (k + length sub <= length l)%nat.
Proof.
  intros [Hk [after Hdrop]].
  apply (f_equal length) in Hdrop.
  rewrite length_drop, length_app in Hdrop. lia.
Qed.

Lemma bytes_slice_inside content (i n : nat) :
  (i + n <= length content)%nat ->
  bytes_slice content (Z.of_nat i) (Z.of_nat (i + n))
  = take n (drop i content).
Proof.
  intros Hlen. unfold bytes_slice.
  destruct (Z.ltb_spec (Z.of_nat (i + n)) 0); [ lia | ].
  destruct (Z.ltb_spec (Z.of_nat i) 0); [ lia | ].
  rewrite !Z.min_l by lia. rewrite !Nat2Z.id.
  by replace (i + n - i)%nat with n by lia.
Qed.

Lemma salvage_unfold content :
  salvage content
  = match find_at type_marker content with
    | Some (S i) =>
        match find_at close_marker (drop (S i) content) with
        | Some j =>
            Some (feeds_open ++ take (j + 2) (drop (S i) content) ++ feeds_close)
        | None => None
        end
    | _ => None
    end.
Proof.
  unfold salvage. rewrite bytes_find_zero.
  destruct (find_at type_marker content) as [ [ | i ] | ] eqn:Hstart;
    try reflexivity.
  apply find_at_Some in Hstart as [Hocc _].
  pose proof (occurs_at_length _ _ _ Hocc) as Hlen.
  rewrite bytes_find_from by lia.
  destruct (find_at close_marker (drop (S i) content)) as [ j | ] eqn:Hend.
  - apply find_at_Some in Hend as [Hocc' _].
    pose proof (occurs_at_length _ _ _ Hocc') as Hlen'.
    rewrite length_drop in Hlen'. simpl length in Hlen'.
    destruct (Z.ltb_spec 0 (Z.of_nat (S i))); [ | lia ].
    destruct (Z.ltb_spec (Z.of_nat (S i)) (Z.of_nat (S i + j) + 2)); [ | lia ].
    simpl andb. cbv iota.
    replace (Z.of_nat (S i + j) + 2)%Z with (Z.of_nat (S i + (j + 2))) by lia.
    rewrite bytes_slice_inside by lia. reflexivity.
  - destruct (Z.ltb_spec (Z.of_nat (S i)) (-1 + 2)); [ lia | ].
    by rewrite andb_false_r.
Qed.

Lemma salvage_Some content partial :
  salvage content = Some partial
  ↔ ∃ i j,
      (0 < i)%nat
      ∧ first_occurrence type_marker content i
      ∧ first_occurrence close_marker (drop i content) j
      ∧ partial = feeds_open ++ take (j + 2) (drop i content) ++ feeds_close.
Proof.
  rewrite salvage_unfold. split.
  - destruct (find_at type_marker content) as [ [ | i ] | ] eqn:Hstart;
      try discriminate.
    destruct (find_at close_marker (drop (S i) content)) as [ j | ] eqn:Hend;
      [ | discriminate ].
    intros [= <-]. exists (S i), j.
    split; [ lia | ]. split; [ by apply find_at_Some | ].
    split; [ by apply find_at_Some | reflexivity ].
  - intros (i & j & Hi & Hstart & Hend & ->).
    apply find_at_Some in Hstart, Hend.
    destruct i as [ | i ]; [ lia | ].
    by rewrite Hstart, Hend.
Qed.

(** X5. The handler of a decode error salvages a text exactly when the
    opening marker occurs in the bytes for the first time at an offset
    greater than zero and the closing marker occurs at or after that
    offset; the text handed to [json.loads] is then the bytes from the
    first opening marker up to and including the first two bytes of the
    first closing marker after it, wrapped in the two literals. *)
Theorem salvage_iff content partial :
  salvage content = Some partial
  ↔ ∃ i j,
      (0 < i)%nat
      ∧ first_occurrence type_marker content i
      ∧ first_occurrence close_marker (drop i content) j
      ∧ partial = feeds_open ++ take (j + 2) (drop i content) ++ feeds_close.
Proof. apply salvage_Some. Qed.

(** X6. Whatever is salvaged starts with the first literal followed by
    the opening marker and ends with a closing brace and a closing
    bracket followed by the second literal, so that its last four bytes
    are a closing brace, two closing brackets and a closing brace; it is
    never shorter than 21 bytes. *)
Theorem salvage_shape content partial :
  salvage content = Some partial ->
  ∃ middle,
    partial = feeds_open ++ type_marker ++ middle ++ [x7d; x5d] ++ feeds_close
    ∧ length partial = (21 + length middle)%nat.
Proof.
  intros Hsalvage.
  apply salvage_Some in Hsalvage
    as (i & j & _ & [[_ [rest Hrest]] _] & [[_ [after Hafter]] _] & ->).
  rewrite Hrest in Hafter |- *. clear Hrest.
  unfold type_marker, close_marker in *.
  do 7 (destruct j as [ | j ]; [ simpl in Hafter; discriminate | ]).
  simpl in Hafter.
  assert (take (j + 2) rest = take j rest ++ [x7d; x5d]) as Htake.
  { rewrite <- take_take_drop, Hafter. reflexivity. }
  assert (j + 4 <= length rest)%nat as Hlen.
  { apply (f_equal length) in Hafter. rewrite length_drop in Hafter.
    simpl in Hafter. lia. }
  exists (take j rest). split.
  - simpl. rewrite Htake. by rewrite <- (assoc_L (++)).
  - simpl. rewrite Htake, !length_app, length_take_le by lia. simpl. lia.
Qed.

Lemma salvage_shape_witness :
  ∃ middle,
    feeds_open ++ type_marker ++ [x3a; x31] ++ [x7d; x5d] ++ feeds_close
    = feeds_open ++ type_marker ++ middle ++ [x7d; x5d] ++ feeds_close
    ∧ length (feeds_open ++ type_marker ++ [x3a; x31] ++ [x7d; x5d] ++ feeds_close)
      = (21 + length middle)%nat.
Proof.
  apply (salvage_shape (x5b :: type_marker ++ [x3a; x31] ++ close_marker)).
  reflexivity.
Defined.

(** X7. The handler gives up, salvaging nothing, in exactly three cases:
    the opening marker does not occur in the bytes; it occurs at offset
    zero, that is, the bytes start with it; or it first occurs at a
    greater offset and the closing marker does not occur at or after that
    offset. *)
Theorem salvage_gives_up content :
  salvage content = None
  ↔ (∀ k, ¬ occurs_at type_marker content k)
    ∨ occurs_at type_marker content 0
    ∨ ∃ i, (0 < i)%nat
           ∧ first_occurrence type_marker content i
           ∧ ∀ k, ¬ occurs_at close_marker (drop i content) k.
Proof.
  rewrite salvage_unfold. split.
  - destruct (find_at type_marker content) as [ [ | i ] | ] eqn:Hstart.
    + intros _. right. left. by apply find_at_Some in Hstart as [Hocc _].
    + destruct (find_at close_marker (drop (S i) content)) eqn:Hend;
        [ discriminate | ].
      intros _. right. right. exists (S i).
      split; [ lia | ]. split; [ by apply find_at_Some | ].
      by apply find_at_None.
    + intros _. left. by apply find_at_None.
  - intros [ Hnever | [ Hzero | (i & Hi & Hstart & Hnever) ] ].
    + apply find_at_None in Hnever. by rewrite Hnever.
    + assert (find_at type_marker content = Some 0%nat) as ->; [ | reflexivity ].
      apply find_at_Some. split; [ exact Hzero | intros ? ?; lia ].
    + apply find_at_Some in Hstart. apply find_at_None in Hnever.
      destruct i as [ | i ]; [ lia | ]. by rewrite Hstart, Hnever.
Qed.

(** * The report loops that follow the comparison *)

Lemma print_loop_all_Ok {A L} (body : A -> result (list L)) (f : A -> list L) l :
  (∀ x, x ∈ l -> body x = Ok (f x)) ->
  print_loop body l = (flat_map f l, None).
Proof.
  induction l as [ | x l IH ]; intros Hbody; [ reflexivity | ].
  simpl. rewrite (Hbody x) by left. rewrite IH; [ reflexivity | ].
  intros y Hy. apply Hbody. by right.
Qed.

Lemma elem_of_flat_map {A B} (f : A -> list B) l y :
  y ∈ flat_map f l ↔ ∃ x, x ∈ l ∧ y ∈ f x.
Proof.
  rewrite list_elem_of_In, in_flat_map. split.
  - intros (x & Hx & Hy). exists x. by rewrite !list_elem_of_In.
  - intros (x & Hx & Hy). exists x. by rewrite <- !list_elem_of_In.
Qed.

Lemma flat_map_length_le {A B} (f : A -> list B) l n :
  (∀ x, length (f x) <= n)%nat -> (length (flat_map f l) <= n * length l)%nat.
Proof.
  intros Hf. induction l as [ | x l IH ]; simpl; [ lia | ].
  rewrite length_app. specialize (Hf x). lia.
Qed.

Lemma sample_value_line_dict fields1 fields2 key :
  sample_value_line (JDict fields1) (JDict fields2) key
  = Ok (sample_line_dict fields1 fields2 key).
Proof.
  unfold sample_value_line, sample_line_dict, py_in, dict_get.
  destruct (lookup_field key fields1) as [ a | ] eqn:Ha,
           (lookup_field key fields2) as [ b | ] eqn:Hb; simpl;
    try reflexivity.
  - by destruct (py_eq a b).
  - etrans; [ apply (getitem_lookup fields1 key
                       (fun v => Ok [MissingInNew key v])) | ].
    by rewrite Ha.
  - etrans; [ apply (getitem_lookup fields2 key
                       (fun v => Ok [MissingInCurrent key v])) | ].
    by rewrite Hb.
Qed.

Lemma check_item_field_dict fields1 fields2 field :
  check_item_field (JDict fields1) (JDict fields2) field
  = Ok (check_line_dict fields1 fields2 field).
Proof.
  unfold check_item_field, check_line_dict, py_in.
  destruct (lookup_field field fields1) as [ a | ] eqn:Ha,
           (lookup_field field fields2) as [ b | ] eqn:Hb; simpl;
    try reflexivity.
  etrans; [ apply (getitem_lookup fields1 field) | ]. rewrite Ha.
  etrans; [ apply (getitem_lookup fields2 field) | ]. rewrite Hb.
  by destruct (String.eqb _ _).
Qed.


Lemma has_key_decide field fields :
  bool_decide (field ∈ keys_of (JDict fields))
  = match lookup_field field fields with Some _ => true | None => false end.
Proof.
  destruct (lookup_field field fields) as [ v | ] eqn:Hv.
  - apply bool_decide_eq_true_2, elem_of_keys_of_dict. by rewrite Hv.
  - apply bool_decide_eq_false_2. rewrite elem_of_keys_of_dict, Hv.
    by intros [? [=]].
Qed.

Lemma elem_of_check_line_dict fields1 fields2 field line :
  line ∈ check_line_dict fields1 fields2 field
  ↔ match line with
    | PresenceMismatch field' curr_has new_has =>
        field' = field
        ∧ curr_has = bool_decide (field ∈ keys_of (JDict fields1))
        ∧ new_has = bool_decide (field ∈ keys_of (JDict fields2))
        ∧ curr_has ≠ new_has
    | FieldTypeMismatch field' type1 type2 =>
        field' = field
        ∧ ∃ a b, lookup_field field fields1 = Some a
                 ∧ lookup_field field fields2 = Some b
                 ∧ type1 = type_name a ∧ type2 = type_name b
                 ∧ type1 ≠ type2
    end.
Proof.
  unfold check_line_dict. rewrite !has_key_decide.
  destruct (lookup_field field fields1) as [ a | ],
           (lookup_field field fields2) as [ b | ];
    [ destruct (String.eqb_spec (type_name a) (type_name b)) | | | ];
    rewrite ?elem_of_cons, ?elem_of_nil; destruct line;
    try (intuition congruence).
  all: split;
    [ intros Hin
    | intros (-> & a' & b' & Ha & Hb & -> & -> & Hne);
      try discriminate; injection Ha as <-; injection Hb as <-;
      first [ contradiction | by left ] ].
  all: try contradiction.
  all: destruct Hin as [ Heq | [] ]; try discriminate.
  injection Heq as -> -> ->. split; [ reflexivity | ].
  exists a, b. by repeat split.
Qed.


(** X9. For two first items that are dicts, the loop over the five item
    fields raises nothing and prints at most five lines, each about one
    of the five fields: a presence line exactly for a field that one item
    has and the other has not, with the two flags; a type line exactly
    for a field that both items have with values of different type
    names, which is when [compare_field_types] reports a mismatch with the
    same two names. *)
Theorem check_item_fields_dicts fields1 fields2 :
  ∃ lines,
    check_item_fields (JDict fields1) (JDict fields2) = (lines, None)
    ∧ (length lines <= 5)%nat
    ∧ (∀ field curr_has new_has,
         PresenceMismatch field curr_has new_has ∈ lines
         ↔ field ∈ check_fields
           ∧ curr_has = bool_decide (field ∈ keys_of (JDict fields1))
           ∧ new_has = bool_decide (field ∈ keys_of (JDict fields2))
           ∧ curr_has ≠ new_has)
    ∧ (∀ field type1 type2,
         FieldTypeMismatch field type1 type2 ∈ lines
         ↔ field ∈ check_fields
           ∧ ∃ a b, lookup_field field fields1 = Some a
                    ∧ lookup_field field fields2 = Some b
                    ∧ ∀ path, compare_field_types a b path
                              = Some (TypeMismatch path type1 type2)).
Proof.
  exists (flat_map (check_line_dict fields1 fields2) check_fields).
  split.
  { apply print_loop_all_Ok. intros field _. apply check_item_field_dict. }
  split.
  { change 5%nat with (1 * length check_fields)%nat.
    apply flat_map_length_le. intros field. unfold check_line_dict.
    destruct (lookup_field field fields1) as [ a | ],
             (lookup_field field fields2) as [ b | ];
      [ destruct (String.eqb _ _) | | | ]; simpl; lia. }
  split.
  - intros field curr_has new_has.
    rewrite elem_of_flat_map.
    split.
    + intros (field' & Hfield & Hline).
      apply elem_of_check_line_dict in Hline as (-> & Hrest). by split.
    + intros (Hfield & Hrest). exists field.
      split; [ exact Hfield | ]. by apply elem_of_check_line_dict.
  - intros field type1 type2. rewrite elem_of_flat_map. split.
    + intros (field' & Hfield & Hline).
      apply elem_of_check_line_dict
        in Hline as (-> & a & b & Ha & Hb & -> & -> & Hne).
      split; [ exact Hfield | ]. exists a, b. repeat split; try assumption.
      intros path. by apply compare_field_types_Some.
    + intros (Hfield & a & b & Ha & Hb & Hcmp). exists field.
      split; [ exact Hfield | ]. apply elem_of_check_line_dict.
      split; [ reflexivity | ]. exists a, b.
      specialize (Hcmp ""). unfold compare_field_types in Hcmp.
      destruct (String.eqb_spec (type_name a) (type_name b)) as [ | Hne ];
        simpl in Hcmp; [ discriminate | ].
      injection Hcmp as <- <-. by repeat split.
Qed.

(** X10. When one of the two first feeds is [None], a [bool] or a
    number, the loop over the sample keys raises a [TypeError] in its
    first iteration, before anything is printed, whatever the other feed
    is. *)
Theorem sample_values_type_error cur new :
  no_members cur = true ∨ no_members new = true ->
  sample_values cur new = ([], Some TypeError).
Proof.
  unfold sample_values, sample_keys.
  unfold print_loop, sample_value_line, py_in.
  intros [ Hcur | Hnew ].
  - destruct cur; try discriminate; reflexivity.
  - destruct new; try discriminate; destruct cur; simpl;
      try reflexivity;
      match goal with
      | |- context [lookup_field ?k ?f] => destruct (lookup_field k f)
      | |- context [existsb ?p ?l] => destruct (existsb p l)
      | |- context [is_substring ?k ?s] => destruct (is_substring k s)
      end; reflexivity.
Qed.

Lemma sample_values_type_error_witness :
  sample_values (JDict [("type", JStr "rss")]) JNone = ([], Some TypeError).
Proof. apply sample_values_type_error. right. reflexivity. Defined.

(** * Further properties of the value comparison and of the previews *)

(** X11. For a key that both dicts have, that is neither an ignored key
    nor a value-exempt key, and whose two values have the same type and
    are neither lists nor dicts: the iteration of the key appends a block
    of records to the result, and that block is empty when the two
    values are equal and is exactly one value difference, at the key's
    path and with the two values, when they are not. *)
Theorem value_difference_reported iter fields1 fields2 path key val1 val2 :
  valid_iter iter ->
  key ∉ ignored_keys ->
  key ∉ value_exempt_keys ->
  lookup_field key fields1 = Some val1 ->
  lookup_field key fields2 = Some val2 ->
  type_name val1 = type_name val2 ->
  is_scalar val1 = true ->
  ∃ before ds after,
    loop_body (compare_objects iter) (JDict fields1) (JDict fields2) path key
    = Ok ds
    ∧ compare_objects iter (JDict fields1) (JDict fields2) path
      = Ok (before ++ ds ++ after)
    ∧ ds = (if py_eq val1 val2 then []
            else [ValueMismatch (new_path_of path key) val1 val2]).
Proof.
  intros Hiter Hign Hex Hv1 Hv2 Hty Hscalar.
  destruct (compare_objects_visit iter (JDict fields1) (JDict fields2) path key
              Hiter (common_key _ _ _ _ _ Hv1 Hv2))
    as (before & ds & after & Hbody & Hrun).
  exists before, ds, after. split; [ exact Hbody | ]. split; [ exact Hrun | ].
  assert (key_in key ignored_keys = false) as Hign'.
  { destruct (key_in key ignored_keys) eqn:Hin; [ | reflexivity ].
    by apply elem_of_key_in in Hin. }
  assert (key_in key value_exempt_keys = false) as Hex'.
  { destruct (key_in key value_exempt_keys) eqn:Hin; [ | reflexivity ].
    by apply elem_of_key_in in Hin. }
  rewrite (loop_body_common _ _ _ _ _ _ _ Hv1 Hv2), Hign' in Hbody.
  rewrite (proj2 (compare_field_types_None _ _ _) Hty) in Hbody.
  destruct (value_ne_reached (compare_objects iter) key val1 val2
              (new_path_of path key) Hty (or_introl Hscalar)) as (_ & _ & E).
  rewrite E, Hex', (value_ne_py_eq _ _ Hty Hscalar) in Hbody.
  destruct (py_eq val1 val2); simpl in Hbody; by injection Hbody.
Qed.

Lemma value_difference_reported_witness :
  ∃ before ds after,
    loop_body (compare_objects sorted)
      (JDict [("feedTitle", JStr "X"); ("lang", JStr "en")])
      (JDict [("feedTitle", JStr "Y")]) "" "feedTitle"
    = Ok ds
    ∧ compare_objects sorted
        (JDict [("feedTitle", JStr "X"); ("lang", JStr "en")])
        (JDict [("feedTitle", JStr "Y")]) ""
      = Ok (before ++ ds ++ after)
    ∧ ds = (if py_eq (JStr "X") (JStr "Y") then []
            else [ValueMismatch (new_path_of "" "feedTitle") (JStr "X") (JStr "Y")]).
Proof.
  apply (value_difference_reported sorted
           [("feedTitle", JStr "X"); ("lang", JStr "en")]
           [("feedTitle", JStr "Y")] "" "feedTitle" (JStr "X") (JStr "Y")).
  - exact valid_iter_sorted.
  - intros Hin. apply elem_of_key_in in Hin. discriminate.
  - intros Hin. apply elem_of_key_in in Hin. discriminate.
  - reflexivity.
  - reflexivity.
  - reflexivity.
  - reflexivity.
Defined.

Lemma substring_app_exact (p q : string) :
  substring 0 (String.length p) (p +:+ q) = p.
Proof.
  induction p as [ | c p IH ]; [ by destruct q | ].
  rewrite string_app_cons. simpl. by rewrite IH.
Qed.

(** X12. A preview never loses any of the first 50 characters of the
    rendering: the preview and the rendering have the same first 50
    characters; and a preview has 53 characters exactly when the
    rendering was longer than 50 and was cut, so that no preview has 51
    or 52 characters. *)
Theorem sample_keeps_first_50 repr_float repr_str v :
  substring 0 50 (sample repr_float repr_str v)
  = substring 0 50 (py_str repr_float repr_str v)
  ∧ (String.length (sample repr_float repr_str v) = 53%nat
     ↔ (50 < String.length (py_str repr_float repr_str v))%nat)
  ∧ String.length (sample repr_float repr_str v) ≠ 51%nat
  ∧ String.length (sample repr_float repr_str v) ≠ 52%nat.
Proof.
  destruct (Nat.le_gt_cases
              (String.length (py_str repr_float repr_str v)) 50) as [ H | H ].
  - rewrite (sample_short _ _ _ H). repeat split; lia.
  - destruct (sample_long _ _ _ H) as [Heq Hlen].
    rewrite Hlen. split; [ | repeat split; (lia || discriminate) ].
    rewrite Heq.
    rewrite <- (substring_length 50 (py_str repr_float repr_str v)) at 1 by lia.
    apply substring_app_exact.
Qed.

(** * A feed against itself *)

Lemma lookup_field_NoDup key v fields :
  NoDup (map fst fields) -> (key, v) ∈ fields ->
  lookup_field key fields = Some v.
Proof.
  induction fields as [ | [key' v'] fields IH ]; simpl; intros Hnd Hin.
  - by apply elem_of_nil in Hin.
  - apply NoDup_cons in Hnd as [Hfresh Hnd].
    apply elem_of_cons in Hin as [ [= -> ->] | Hin ].
    + by rewrite String.eqb_refl.
    + destruct (String.eqb_spec key' key) as [ -> | _ ]; [ | by apply IH ].
      exfalso. apply Hfresh.
      change key with (fst (key, v)). by apply list_elem_of_fmap_2.
Qed.

Lemma py_eq_refl v :
  nan_free v = true -> unique_keys v = true -> py_eq v v = true.
Proof.
  induction v as [ | b | n | f | s | items IH | fields IH ]
    using JsonValue_nested_ind; simpl; intros Hnan Huniq.
  - reflexivity.
  - by destruct b.
  - apply Z.eqb_refl.
  - apply SFeqb_refl. intros ->. discriminate.
  - apply String.eqb_refl.
  - induction IH as [ | x items Hx _ IHitems ]; [ reflexivity | ].
    simpl in Hnan, Huniq.
    apply andb_prop in Hnan as [Hnx Hnan], Huniq as [Hux Huniq].
    by rewrite (Hx Hnx Hux), orb_true_r, (IHitems Hnan Huniq).
  - rewrite Nat.eqb_refl. simpl.
    apply andb_prop in Huniq as [Hnd Huniq]. apply bool_decide_eq_true_1 in Hnd.
    apply forallb_forall. intros [key v] Hin. simpl.
    apply list_elem_of_In in Hin.
    rewrite (lookup_field_NoDup key v fields Hnd Hin).
    apply orb_true_intro. right.
    rewrite Forall_forall in IH. apply (IH (key, v) Hin).
    + rewrite forallb_forall in Hnan. apply (Hnan (key, v)).
      by apply list_elem_of_In.
    + rewrite forallb_forall in Huniq. apply (Huniq (key, v)).
      by apply list_elem_of_In.
Qed.

Lemma print_loop_quiet {A L} (body : A -> result (list L)) l :
  (∀ x, x ∈ l -> body x = Ok []) -> print_loop body l = ([], None).
Proof.
  induction l as [ | x l IH ]; intros Hbody; [ reflexivity | ].
  simpl. rewrite (Hbody x) by left. rewrite IH; [ reflexivity | ].
  intros y Hy. apply Hbody. by right.
Qed.

(** X13. Given the same dict twice, with no [NaN] in it and with the keys
    of each of its dicts pairwise distinct, both report loops run to
    their end and print nothing. *)
Theorem report_loops_same_feed fields :
  nan_free (JDict fields) = true ->
  unique_keys (JDict fields) = true ->
  sample_values (JDict fields) (JDict fields) = ([], None)
  ∧ check_item_fields (JDict fields) (JDict fields) = ([], None).
Proof.
  intros Hnan Huniq.
  split; apply print_loop_quiet; intros key _.
  - rewrite sample_value_line_dict. unfold sample_line_dict.
    destruct (lookup_field key fields) as [ v | ] eqn:Hv; [ | reflexivity ].
    rewrite py_eq_refl; [ reflexivity | | ].
    + exact (nan_free_field _ _ _ Hnan (lookup_field_elem_of _ _ _ Hv)).
    + simpl in Huniq. apply andb_prop in Huniq as [_ Huniq].
      rewrite forallb_forall in Huniq. apply (Huniq (key, v)).
      apply list_elem_of_In. by apply lookup_field_elem_of.
  - rewrite check_item_field_dict. unfold check_line_dict.
    destruct (lookup_field key fields) as [ v | ]; [ | reflexivity ].
    by rewrite String.eqb_refl.
Qed.

Lemma report_loops_same_feed_witness :
  sample_values
    (JDict [("type", JList [JInt 1; JFloat five_point_zero]);
            ("status", JDict [("code", JInt 200); ("text", JStr "ok")])])
    (JDict [("type", JList [JInt 1; JFloat five_point_zero]);
            ("status", JDict [("code", JInt 200); ("text", JStr "ok")])])
  = ([], None)
  ∧ check_item_fields
      (JDict [("type", JList [JInt 1; JFloat five_point_zero]);
              ("status", JDict [("code", JInt 200); ("text", JStr "ok")])])
      (JDict [("type", JList [JInt 1; JFloat five_point_zero]);
              ("status", JDict [("code", JInt 200); ("text", JStr "ok")])])
    = ([], None).
Proof. apply report_loops_same_feed; vm_compute; reflexivity. Defined.

(** A sample key holding [NaN] is printed as changed against itself. *)
Example sample_values_nan :
  sample_values (JDict [("status", JFloat S754_nan)])
                (JDict [("status", JFloat S754_nan)])
  = ([ValueChanged "status" (JFloat S754_nan) (JFloat S754_nan)], None).
Proof. vm_compute. reflexivity. Qed.

(** A list holding [NaN] is not: its member is the one object the
    decoder returns for [NaN], on both sides. *)
Example sample_values_nan_member :
  sample_values (JDict [("status", JList [JFloat S754_nan])])
                (JDict [("status", JList [JFloat S754_nan])])
  = ([], None).
Proof. vm_compute. reflexivity. Qed.
